(** * Disaster-response platform: enrichment and distribution core

    A shallow embedding of the server's cache (server/utils/cache.js), the
    geocoding fallback chain (server/services/geocoding.js), the geocoding and
    verification routes, and the Socket.IO fan-out, followed by the properties
    the specification states about them.

    Conventions. An [async] function is a state-passing computation that ends
    normally or throws. The state holds what the process can change: the
    tables it writes, the log, and the clock it reads. What the process cannot
    decide is an input of the model: the environment variables, the reply of
    each HTTP service and of each database call, [Math.random()]. Timestamps
    are integers (milliseconds), JavaScript numbers are rationals or NaN, a
    text is the string of its UTF-8 bytes, and the fields of a request body
    are absent or strings. Built-ins whose definition is outside the
    repository (JSON.parse, the regular-expression engine on the location
    patterns, number and date formatting) are parameters. *)

From Stdlib Require Import ZArith QArith Qround String Ascii List Lia.
From stdpp Require Import base option gmap strings list.

Local Open Scope Z_scope.
Local Open Scope string_scope.

(** ** JavaScript values *)

(** The values the routes build, cache and send: JSON data plus [undefined]
    and [NaN]. Numbers are rationals; an object is its list of fields in
    insertion order. *)
#[warnings="-register-all"]
Inductive JsValue : Type :=
| JsUndefined
| JsNull
| JsBool (b : bool)
| JsNaN
| JsNumber (q : Q)
| JsString (s : string)
| JsArray (items : list JsValue)
| JsObject (fields : list (string * JsValue)).

(** ToBoolean: what [if (v)] and [v ? a : b] test. *)
Definition truthy (v : JsValue) : bool :=
  match v with
  | JsUndefined | JsNull | JsNaN => false
  | JsBool b => b
  | JsNumber q => negb (Qeq_bool q 0)
  | JsString s => negb (String.eqb s "")
  | JsArray _ | JsObject _ => true
  end.

(** [a || b] *)
Definition js_or (a b : JsValue) : JsValue := if truthy a then a else b.

Fixpoint assoc_get (name : string) (fields : list (string * JsValue)) : JsValue :=
  match fields with
  | [] => JsUndefined
  | (k, v) :: rest => if String.eqb k name then v else assoc_get name rest
  end.

(** The names of an object's own fields, in order. *)
Definition field_names (v : JsValue) : list string :=
  match v with
  | JsObject fields => map fst fields
  | _ => []
  end.

(** An error value: [message] for [Error] objects, [code] for the error
    objects of the database client. *)
Record JsError : Type := mkError { code : option string; message : string }.

Definition Error (msg : string) : JsError := mkError None msg.
Definition TypeError (msg : string) : JsError := mkError None msg.

(** How a JavaScript computation ends. *)
Inductive Completion (A : Type) : Type :=
| Normal (a : A)
| Throw (e : JsError).
Arguments Normal {A} a.
Arguments Throw {A} e.

(** ** The process state *)

(** A row of table [cache]: the columns the code reads and writes ([id] and
    [created_at] are filled in by the database and never read). The column
    [key] is UNIQUE NOT NULL, so the table is a finite map from keys. *)
Record CacheRow : Type := mkRow { value : JsValue; expires_at : Z }.

Inductive LogLevel : Type := error | warn | info | debug.

Record LogLine : Type := mkLog { level : LogLevel; text : string; detail : string }.

(** [now] is the clock in milliseconds ([Date.now()], [new Date()]);
    [reports] maps a report id to its [verification_status]. *)
Record World : Type := mkWorld {
  now : Z;
  cache : gmap string CacheRow;
  reports : gmap string string;
  logs : list LogLine
}.

Definition set_cache (c : gmap string CacheRow) (w : World) : World :=
  mkWorld (now w) c (reports w) (logs w).
Definition set_reports (r : gmap string string) (w : World) : World :=
  mkWorld (now w) (cache w) r (logs w).
Definition add_log (l : LogLine) (w : World) : World :=
  mkWorld (now w) (cache w) (reports w) (logs w ++ [l]).

(** ** Computations: state passing with exceptions *)

Definition M (A : Type) : Type := World -> Completion A * World.

Definition ret {A} (a : A) : M A := fun w => (Normal a, w).
Definition throw {A} (e : JsError) : M A := fun w => (Throw e, w).
Definition bind {A B} (m : M A) (k : A -> M B) : M B :=
  fun w => match m w with
           | (Normal a, w') => k a w'
           | (Throw e, w') => (Throw e, w')
           end.
(** [try { body } catch (e) { handler e }] *)
Definition try_catch {A} (body : M A) (handler : JsError -> M A) : M A :=
  fun w => match body w with
           | (Normal a, w') => (Normal a, w')
           | (Throw e, w') => handler e w'
           end.
(** A pure computation that may throw, run inside [M]. *)
Definition lift {A} (c : Completion A) : M A := fun w => (c, w).
Definition gets {A} (f : World -> A) : M A := fun w => (Normal (f w), w).
Definition modify (f : World -> World) : M unit := fun w => (Normal tt, f w).

Declare Scope js_scope.
Delimit Scope js_scope with js.
Notation "x <- m ;; k" := (bind m (fun x => k))
  (at level 100, m at next level, right associativity) : js_scope.
Notation "m ;; k" := (bind m (fun _ => k))
  (at level 100, right associativity) : js_scope.
Local Open Scope js_scope.

(** [logger.error], [logger.warn], [logger.info] and [logger.debug]: the call
    is recorded, with the fixed part of its message and the value that goes
    with it; which levels reach the console is left out. *)
Definition logger (l : LogLevel) (msg detail : string) : M unit :=
  modify (add_log (mkLog l msg detail)).

(** Property access [v.name]: a TypeError on [undefined] and [null]. *)
Definition prop (v : JsValue) (name : string) : Completion JsValue :=
  match v with
  | JsUndefined | JsNull => Throw (TypeError "Cannot read properties of undefined")
  | JsObject fields => Normal (assoc_get name fields)
  | _ => Normal JsUndefined
  end.

(** ** The database client *)

(** The calls the code makes on the client. *)
Inductive DbCall : Type :=
| CacheSelect (key : string)
| CacheDelete (key : string)
| CacheUpsert (key : string)
| CacheSweep
| ReportsUpdate (id : string).

(** What the store does with a call: serve it (the table and its constraints
    decide the reply), answer with an [error] object of its own, or reject the
    promise (transport failure). *)
Inductive DbHealth : Type :=
| Healthy
| ErrorReply (e : JsError)
| Rejected (e : JsError).

(** [{ data, error }] *)
Inductive DbReply (A : Type) : Type :=
| DbData (data : A)
| DbError (e : JsError).
Arguments DbData {A} data.
Arguments DbError {A} e.

Definition PGRST116 : JsError := mkError (Some "PGRST116") "no rows returned".

(** The error of the database for a row that repeats a value of a UNIQUE
    column. *)
Definition unique_violation : JsError :=
  mkError (Some "23505") "duplicate key value violates unique constraint".

Definition is_PGRST116 (e : JsError) : bool :=
  match code e with
  | Some c => String.eqb c "PGRST116"
  | None => false
  end.

(** ** Built-ins of the JavaScript runtime that stay abstract *)
Record Platform : Type := mkPlatform {
  (** [JSON.parse]; [None] is a SyntaxError *)
  JSON_parse : string -> option JsValue;
  (** [new Date(ms).toISOString()] *)
  toISOString : Z -> string;
  (** [parseFloat] *)
  parseFloat : string -> JsValue;
  (** ToNumber on strings, arrays and objects; [None] is NaN *)
  ToNumber_text : JsValue -> option Q;
  (** ToString on values that are not strings *)
  ToString_other : JsValue -> string;
  (** the capture groups [match[1]] the three location patterns of
      [extractLocationsFallback] find in a text, in order *)
  location_matches : string -> list string
}.

(** ** What lies outside the process *)

Inductive AxiosResult (D : Type) : Type :=
| Resolved (data : D)
| Failed (e : JsError).
Arguments Resolved {D} data.
Arguments Failed {D} e.

Record GoogleResult : Type := mkGoogleResult {
  g_lat : JsValue; g_lng : JsValue; g_formatted_address : JsValue; g_place_id : JsValue
}.
Record GoogleData : Type := mkGoogleData { g_status : string; g_results : list GoogleResult }.

Record MapboxFeature : Type := mkMapboxFeature {
  m_center : list JsValue; m_place_name : JsValue; m_id : JsValue
}.
Record MapboxData : Type := mkMapboxData { m_features : option (list MapboxFeature) }.

Record OsmPlace : Type := mkOsmPlace {
  o_lat : string; o_lon : string; o_display_name : JsValue; o_place_id : JsValue
}.

(** The two prompts sent to Gemini, by the text interpolated into them. *)
Inductive GeminiPrompt : Type :=
| LocationExtraction (inputText : string)
| ImageVerification (image_url : string).

(** The configuration read from [process.env], the answers of the services
    called over HTTP (by location name), the answer of the database to each
    call, and the value of [Math.random()]. *)
Record Outside : Type := mkOutside {
  GOOGLE_MAPS_API_KEY : option string;
  MAPBOX_ACCESS_TOKEN : option string;
  GEMINI_API_KEY : option string;
  google_maps : string -> AxiosResult GoogleData;
  mapbox : string -> AxiosResult MapboxData;
  nominatim : string -> AxiosResult (option (list OsmPlace));
  (** the text of the first candidate, when the reply has one *)
  gemini : GeminiPrompt -> AxiosResult (option string);
  db : DbCall -> DbHealth;
  Math_random : Q
}.

(** [!KEY] for an environment variable: unset or empty. *)
Definition unset (k : option string) : bool :=
  match k with
  | None => true
  | Some s => String.eqb s ""
  end.

(** ** Cache keys *)

(** [Buffer.from(text).toString('base64')]: the text is its UTF-8 bytes, three
    bytes give four characters of the alphabet, a last group of one or two
    bytes is padded with [=]. *)
Definition base64_alphabet : string :=
  "ABCDEFGHIJKLMNOPQRSTUVWXYZabcdefghijklmnopqrstuvwxyz0123456789+/".

Definition base64_char (sextet : N) : ascii :=
  match String.get (N.to_nat sextet) base64_alphabet with
  | Some c => c
  | None => "="%char
  end.

Definition sextet1 (a : N) : N := (a / 4)%N.
Definition sextet2 (a b : N) : N := ((a mod 4) * 16 + b / 16)%N.
Definition sextet3 (b c : N) : N := ((b mod 16) * 4 + c / 64)%N.
Definition sextet4 (c : N) : N := (c mod 64)%N.

Fixpoint base64 (bytes : string) : string :=
  match bytes with
  | EmptyString => EmptyString
  | String a EmptyString =>
      let a := N_of_ascii a in
      String (base64_char (sextet1 a)) (String (base64_char (sextet2 a 0)) "==")
  | String a (String b EmptyString) =>
      let a := N_of_ascii a in
      let b := N_of_ascii b in
      String (base64_char (sextet1 a)) (String (base64_char (sextet2 a b))
        (String (base64_char (sextet3 b 0)) "="))
  | String a (String b (String c rest)) =>
      let a := N_of_ascii a in
      let b := N_of_ascii b in
      let c := N_of_ascii c in
      String (base64_char (sextet1 a)) (String (base64_char (sextet2 a b))
        (String (base64_char (sextet3 b c)) (String (base64_char (sextet4 c))
          (base64 rest))))
  end.

(** The sextets, 0 to 63. *)
Definition sextets : list N := map N.of_nat (seq 0 64).

(** [s.slice(0, n)] *)
Fixpoint slice0 (n : nat) (s : string) : string :=
  match n, s with
  | S n', String c s' => String c (slice0 n' s')
  | _, _ => EmptyString
  end.

(** [`geocode_${Buffer.from(inputText).toString('base64').slice(0, 32)}`] *)
Definition geocode_cacheKey (inputText : string) : string :=
  "geocode_" ++ slice0 32 (base64 inputText).

(** [`direct_geocode_${Buffer.from(location_name).toString('base64').slice(0, 32)}`] *)
Definition direct_geocode_cacheKey (location_name : string) : string :=
  "direct_geocode_" ++ slice0 32 (base64 location_name).

(** [`image_verification_${Buffer.from(image_url).toString('base64').slice(0, 32)}`] *)
Definition image_verification_cacheKey (image_url : string) : string :=
  "image_verification_" ++ slice0 32 (base64 image_url).

(** ** Helpers of the routes *)

(** [v.name] on a value known not to be [undefined] or [null]. *)
Definition field (v : JsValue) (name : string) : JsValue :=
  match v with
  | JsObject fields => assoc_get name fields
  | _ => JsUndefined
  end.

(** A field of a request body: absent, or a string. [present] is its
    truthiness. *)
Definition present (f : option string) : bool :=
  match f with
  | None => false
  | Some s => negb (String.eqb s "")
  end.

(** The string of a field found [present]. *)
Definition the_string (f : option string) : string :=
  match f with
  | Some s => s
  | None => ""
  end.

Record Response : Type := json { status : Z; body : JsValue }.

(** [[...new Set(xs)]] *)
Fixpoint dedupe (xs : list string) : list string :=
  match xs with
  | [] => []
  | x :: rest => x :: filter (fun y => negb (String.eqb x y)) (dedupe rest)
  end.

(** [text.match(/\{[\s\S]*\}/)]: from the first opening brace to the last
    closing brace after it. *)
Fixpoint from_first_brace (s : string) : option string :=
  match s with
  | EmptyString => None
  | String c s' => if Ascii.eqb c "{" then Some s else from_first_brace s'
  end.

Fixpoint upto_last_brace (s : string) : option string :=
  match s with
  | EmptyString => None
  | String c s' =>
      match upto_last_brace s' with
      | Some p => Some (String c p)
      | None => if Ascii.eqb c "}" then Some (String c EmptyString) else None
      end
  end.

Definition json_match (s : string) : option string :=
  match from_first_brace s with
  | Some t => upto_last_brace t
  | None => None
  end.

(** ** The fallback chain's bookkeeping *)

(** A geocoder of the chain: the arrow function [() => geocodeWithX(name)]. *)
Record Geocoder : Type := mkGeocoder {
  g_name : string;
  g_call : unit -> Completion JsValue
}.

(** One run of the chain: how it ended, the geocoders it called, in order,
    and the messages it logged as warnings. *)
Record Attempt : Type := mkAttempt {
  outcome : Completion JsValue;
  invoked : list string;
  warnings : list string
}.

(** [logger.warn(`Geocoding attempt failed:`, error.message)], once per
    message. *)
Definition warned (w : World) (ws : list string) : World :=
  fold_left (fun w' msg => add_log (mkLog warn "Geocoding attempt failed:" msg) w') ws w.

(** A geocoder fails when it throws or resolves to a falsy value; only a
    throw has a reason. *)
Definition fails (g : Geocoder) : Prop :=
  match g_call g tt with
  | Normal result => truthy result = false
  | Throw _ => True
  end.

Definition reason_of (g : Geocoder) : option string :=
  match g_call g tt with
  | Normal _ => None
  | Throw e => Some (message e)
  end.

Section Server.

Variable platform : Platform.
Variable outside : Outside.

(** *** server/utils/cache.js *)

(** [supabase.from('cache').select('value, expires_at').eq('key', key).single()] *)
Definition cache_select (key : string) : M (DbReply CacheRow) :=
  match db outside (CacheSelect key) with
  | Rejected e => throw e
  | ErrorReply e => ret (DbError e)
  | Healthy =>
      c <- gets cache ;;
      match c !! key with
      | Some row => ret (DbData row)
      | None => ret (DbError PGRST116)
      end
  end.

(** [supabase.from('cache').delete().eq('key', key)]; the caller does not
    look at the reply. *)
Definition cache_delete (key : string) : M unit :=
  match db outside (CacheDelete key) with
  | Rejected e => throw e
  | ErrorReply e => ret tt
  | Healthy => modify (fun w => set_cache (delete key (cache w)) w)
  end.

(** [supabase.from('cache').upsert({ key, value, expires_at })]. The call
    names no [onConflict] column, so the conflict it resolves is one on the
    primary key of the table, [id], which the row does not give and the table
    generates ([id UUID PRIMARY KEY DEFAULT gen_random_uuid()],
    [key TEXT UNIQUE NOT NULL]): the row is inserted when no row has its
    key, and refused by the UNIQUE constraint on [key] when one has. *)
Definition cache_upsert (key : string) (row : CacheRow) : M (DbReply unit) :=
  match db outside (CacheUpsert key) with
  | Rejected e => throw e
  | ErrorReply e => ret (DbError e)
  | Healthy =>
      c <- gets cache ;;
      match c !! key with
      | Some _ => ret (DbError unique_violation)
      | None =>
          modify (fun w => set_cache (<[key := row]> (cache w)) w) ;;
          ret (DbData tt)
      end
  end.

(** [supabase.from('cache').delete().lt('expires_at', now)] *)
Definition cache_delete_expired (t : Z) : M (DbReply unit) :=
  match db outside CacheSweep with
  | Rejected e => throw e
  | ErrorReply e => ret (DbError e)
  | Healthy =>
      modify (fun w =>
        set_cache (filter (fun kr => Z.ltb (expires_at (snd kr)) t = false) (cache w)) w) ;;
      ret (DbData tt)
  end.

Definition getCachedData (key : string) : M JsValue :=
  try_catch
    (r <- cache_select key ;;
     match r with
     | DbError e =>
         if is_PGRST116 e then ret JsNull else throw e
     | DbData data =>
         t <- gets now ;;
         if Z.ltb (expires_at data) t then
           cache_delete key ;;
           ret JsNull
         else ret (value data)
     end)
    (fun e =>
       logger error "Error getting cached data:" (message e) ;;
       ret JsNull).

Definition default_ttl (ttlSeconds : option Z) : Z :=
  match ttlSeconds with
  | Some s => s
  | None => 3600
  end.

(** [setCachedData], for a whole number of seconds and an expiry
    [Date.now() + ttlSeconds * 1000] in the range of [Date] (within 8.64e15
    ms of the epoch), where [toISOString] returns. *)
Definition setCachedData (key : string) (v : JsValue) (ttlSeconds : option Z) : M unit :=
  try_catch
    (t <- gets now ;;
     let expiresAt := t + default_ttl ttlSeconds * 1000 in
     r <- cache_upsert key (mkRow v expiresAt) ;;
     match r with
     | DbError e => throw e
     | DbData _ => logger debug "Data cached with key" key
     end)
    (fun e => logger error "Error setting cached data:" (message e)).

Definition clearExpiredCache : M unit :=
  try_catch
    (t <- gets now ;;
     r <- cache_delete_expired t ;;
     match r with
     | DbError e => throw e
     | DbData _ => logger info "Expired cache entries cleared" ""
     end)
    (fun e => logger error "Error clearing expired cache:" (message e)).

(** *** server/services/geocoding.js *)

(** ToString, as template literals and [encodeURIComponent] apply it. *)
Definition ToString (v : JsValue) : string :=
  match v with
  | JsString s => s
  | _ => ToString_other platform v
  end.

Definition geocodeWithGoogleMaps (locationName : JsValue) : Completion JsValue :=
  if unset (GOOGLE_MAPS_API_KEY outside) then
    Throw (Error "Google Maps API key not configured")
  else
    match google_maps outside (ToString locationName) with
    | Failed e => Throw e
    | Resolved data =>
        if String.eqb (g_status data) "OK" && Nat.ltb 0 (length (g_results data)) then
          match g_results data with
          | result :: _ =>
              Normal (JsObject [("lat", g_lat result); ("lng", g_lng result);
                                ("formatted_address", g_formatted_address result);
                                ("place_id", g_place_id result);
                                ("service", JsString "google_maps")])
          | [] => Throw (TypeError "Cannot read properties of undefined")
          end
        else Throw (Error ("Google Maps geocoding failed: " ++ g_status data))
    end.

Definition geocodeWithMapbox (locationName : JsValue) : Completion JsValue :=
  if unset (MAPBOX_ACCESS_TOKEN outside) then
    Throw (Error "Mapbox access token not configured")
  else
    match mapbox outside (ToString locationName) with
    | Failed e => Throw e
    | Resolved data =>
        match m_features data with
        | Some (feature :: _) =>
            Normal (JsObject [("lat", nth 1 (m_center feature) JsUndefined);
                              ("lng", nth 0 (m_center feature) JsUndefined);
                              ("formatted_address", m_place_name feature);
                              ("place_id", m_id feature);
                              ("service", JsString "mapbox")])
        | _ => Throw (Error "Mapbox geocoding returned no results")
        end
    end.

Definition geocodeWithOpenStreetMap (locationName : JsValue) : Completion JsValue :=
  match nominatim outside (ToString locationName) with
  | Failed e => Throw e
  | Resolved data =>
      match data with
      | Some (result :: _) =>
          Normal (JsObject [("lat", parseFloat platform (o_lat result));
                            ("lng", parseFloat platform (o_lon result));
                            ("formatted_address", o_display_name result);
                            ("place_id", o_place_id result);
                            ("service", JsString "openstreetmap")])
      | _ => Throw (Error "OpenStreetMap geocoding returned no results")
      end
  end.

(** [for (const geocoder of geocoders) { try { ... } catch { ... } }] followed
    by the final [throw]: the thunks are forced in list order; [invoked]
    records which ones were, [warnings] what [logger.warn] was given. *)
Fixpoint try_geocoders (geocoders : list Geocoder) : Attempt :=
  match geocoders with
  | [] => mkAttempt (Throw (Error "All geocoding services failed")) [] []
  | geocoder :: rest =>
      match g_call geocoder tt with
      | Normal result =>
          if truthy result then mkAttempt (Normal result) [g_name geocoder] []
          else
            let a := try_geocoders rest in
            mkAttempt (outcome a) (g_name geocoder :: invoked a) (warnings a)
      | Throw e =>
          let a := try_geocoders rest in
          mkAttempt (outcome a) (g_name geocoder :: invoked a) (message e :: warnings a)
      end
  end.

(** Try Google Maps first, then Mapbox, then OpenStreetMap. *)
Definition geocoders (locationName : JsValue) : list Geocoder :=
  [ mkGeocoder "geocodeWithGoogleMaps" (fun _ => geocodeWithGoogleMaps locationName);
    mkGeocoder "geocodeWithMapbox" (fun _ => geocodeWithMapbox locationName);
    mkGeocoder "geocodeWithOpenStreetMap" (fun _ => geocodeWithOpenStreetMap locationName) ].

Definition log_warnings (ws : list string) : M unit :=
  modify (fun w => warned w ws).

Definition geocodeLocation (locationName : JsValue) : M JsValue :=
  let a := try_geocoders (geocoders locationName) in
  log_warnings (warnings a) ;;
  lift (outcome a).

(** *** server/services/gemini.js *)

Definition callGeminiAPI (prompt : GeminiPrompt) : M string :=
  if unset (GEMINI_API_KEY outside) then
    throw (Error "Google Gemini API key not configured")
  else
    try_catch
      (match prompt with
       | ImageVerification url =>
           if negb (String.eqb url "") then logger info "Image analysis requested for" url
           else ret tt
       | LocationExtraction _ => ret tt
       end ;;
       match gemini outside prompt with
       | Failed e => throw e
       | Resolved (Some text) =>
           if negb (String.eqb text "") then ret text
           else throw (Error "Invalid response format from Gemini API")
       | Resolved None => throw (Error "Invalid response format from Gemini API")
       end)
      (fun e =>
         logger error "Gemini API call failed:" (message e) ;;
         throw (Error ("Gemini API error: " ++ message e))).

(** *** server/routes/geocoding.js *)

Definition extractLocationsFallback (text : string) : JsValue :=
  let locations := location_matches platform text in
  JsObject [("locations", JsArray (map JsString (dedupe locations)));
            ("primary_location", js_or (nth 0 (map JsString locations) JsUndefined) JsNull);
            ("confidence", JsString (if Nat.ltb 0 (length locations) then "medium" else "low"));
            ("method", JsString "pattern_matching_fallback")].









(** *** server/routes/verification.js *)

(** ToNumber, as [>=] applies it to its left operand; [None] is NaN. *)
Definition ToNumber (v : JsValue) : option Q :=
  match v with
  | JsUndefined | JsNaN => None
  | JsNull => Some 0%Q
  | JsBool b => Some (if b then 1%Q else 0%Q)
  | JsNumber q => Some q
  | JsString _ | JsArray _ | JsObject _ => ToNumber_text platform v
  end.

(** [v >= c] for a numeric literal [c] *)
Definition js_ge (v : JsValue) (c : Q) : bool :=
  match ToNumber v with
  | Some q => Qle_bool c q
  | None => false
  end.

(** [Math.floor(Math.random() * 40) + 60] *)
Definition fallback_score : Z := Qfloor (Math_random outside * 40) + 60.

Definition generateFallbackVerification : JsValue :=
  let score := fallback_score in
  JsObject [("authenticity_score", JsNumber (inject_Z score));
            ("confidence_level",
             JsString (if Z.leb 80 score then "high" else if Z.leb 60 score then "medium" else "low"));
            ("analysis_notes",
             JsString "Automated analysis completed. Manual review recommended for critical decisions.");
            ("disaster_type", JsString "unspecified");
            ("flags", JsArray (if Z.ltb score 70 then [JsString "requires_manual_review"] else []));
            ("method", JsString "fallback_analysis")].

(** What [parseGeminiVerificationResponse] returns when the reply holds no
    JSON object. *)
Definition no_json_verification : JsValue :=
  JsObject [("authenticity_score", JsNumber 75);
            ("confidence_level", JsString "medium");
            ("analysis_notes",
             JsString "Image appears to show legitimate disaster conditions based on visual analysis.");
            ("disaster_type", JsString "general_emergency");
            ("flags", JsArray [])].

Definition parseGeminiVerificationResponse (geminiResponse : string) : M JsValue :=
  try_catch
    (match json_match geminiResponse with
     | Some jsonMatch =>
         match JSON_parse platform jsonMatch with
         | Some v => ret v
         | None => throw (Error "Unexpected token in JSON")
         end
     | None => ret no_json_verification
     end)
    (fun e =>
       logger warn "Failed to parse Gemini verification response:" (message e) ;;
       ret generateFallbackVerification).

(** The primary provider with its heuristic fallback: the [try]/[catch] that
    assigns [verificationResult]. *)
Definition verifyImage (image_url : string) : M JsValue :=
  try_catch
    (geminiResponse <- callGeminiAPI (ImageVerification image_url) ;;
     parseGeminiVerificationResponse geminiResponse)
    (fun e =>
       logger warn "Gemini API verification failed, using fallback analysis:" (message e) ;;
       ret generateFallbackVerification).

(** [score >= 70 ? 'verified' : score >= 40 ? 'questionable' : 'rejected'] *)
Definition verification_status_of (authenticity_score : JsValue) : string :=
  if js_ge authenticity_score 70 then "verified"
  else if js_ge authenticity_score 40 then "questionable"
  else "rejected".

(** [supabase.from('reports').update({ verification_status }).eq('id', id)];
    the caller does not look at the reply. *)
Definition reports_update_status (id status : string) : M unit :=
  match db outside (ReportsUpdate id) with
  | Rejected e => throw e
  | ErrorReply e => ret tt
  | Healthy =>
      modify (fun w =>
        match reports w !! id with
        | Some _ => set_reports (<[id := status]> (reports w)) w
        | None => w
        end)
  end.

Definition opt_string (f : option string) : JsValue :=
  match f with
  | Some s => JsString s
  | None => JsUndefined
  end.

(** POST /verification/:disasterId/verify-image, with the request body's
    [image_url] and [report_id], each absent or a string. *)
Definition post_verify_image (disasterId : string) (image_url report_id : option string)
  : M Response :=
  try_catch
    (if negb (present image_url) then
       ret (json 400 (JsObject [("error", JsString "image_url is required")]))
     else
       let image_url := the_string image_url in
       let cacheKey := image_verification_cacheKey image_url in
       cachedResult <- getCachedData cacheKey ;;
       if truthy cachedResult then
         logger info "Image verification served from cache" "" ;;
         ret (json 200 cachedResult)
       else
         verificationResult <- verifyImage image_url ;;
         t <- gets now ;;
         let result :=
           [("disaster_id", JsString disasterId);
            ("report_id", opt_string report_id);
            ("image_url", JsString image_url);
            ("verification", verificationResult);
            ("timestamp", JsString (toISOString platform t))] in
         result <-
           (if present report_id then
              try_catch
                (authenticity_score <- lift (prop verificationResult "authenticity_score") ;;
                 let status := verification_status_of authenticity_score in
                 reports_update_status (the_string report_id) status ;;
                 ret (result ++ [("verification_status", JsString status)])%list)
                (fun e =>
                   logger error "Failed to update report verification status:" (message e) ;;
                   ret result)
            else ret result) ;;
         setCachedData cacheKey (JsObject result) (Some 3600) ;;
         logger info "Image verification completed for disaster" disasterId ;;
         ret (json 200 (JsObject result)))
    (fun e =>
       logger error "Error in image verification:" (message e) ;;
       ret (json 500 (JsObject [("error", JsString "Failed to verify image")]))).

End Server.

(** ** Real-time fan-out (server/index.js and the routes' emits) *)

(** The connected sockets, each with the rooms it has joined through
    [socket.join]; the private room Socket.IO names after the socket's own id
    is left out. *)
Abbreviation Sockets := (gmap string (gset string)).

Inductive SocketEvent : Type :=
| Connection (socket_id : string)
| JoinDisaster (socket_id : string) (disasterId : string)
| Disconnect (socket_id : string).

(** [`disaster_${disasterId}`] *)
Definition disaster_room (disasterId : string) : string := "disaster_" ++ disasterId.

(** [io.on('connection')], [socket.on('join_disaster')] and
    [socket.on('disconnect')]; a message of a socket that is not connected
    reaches no handler. The rooms kept are those of disasters, the only ones
    the routes emit to: a new connection is in none of them. *)
Definition on_event (io : Sockets) (e : SocketEvent) : Sockets :=
  match e with
  | Connection sid => <[sid := ∅]> io
  | JoinDisaster sid disasterId =>
      match io !! sid with
      | Some rooms => <[sid := {[disaster_room disasterId]} ∪ rooms]> io
      | None => io
      end
  | Disconnect sid => delete sid io
  end.

Definition after_events (history : list SocketEvent) : Sockets :=
  fold_left on_event history ∅.

(** [io.emit(...)] or [io.to(room).emit(...)] *)
Inductive Target : Type :=
| ToAll
| ToRoom (room : string).

Record Emission : Type := mkEmission {
  target : Target;
  event : string;
  payload : JsValue
}.

(** The sockets an emission is delivered to. *)
Definition recipients (io : Sockets) (e : Emission) : gset string :=
  match target e with
  | ToAll => dom io
  | ToRoom room => dom (filter (fun kv => room ∈ snd kv) io)
  end.

(** The kinds of mutation the routes announce. *)
Inductive MutationKind : Type := create | update | delete_.

Definition kind_name (k : MutationKind) : string :=
  match k with
  | create => "create"
  | update => "update"
  | delete_ => "delete"
  end.

(** routes/disasters.js, POST, PUT and DELETE:
    [req.io.emit('disaster_updated', { type, data })] *)
Definition emit_disaster_updated (k : MutationKind) (data : JsValue) : Emission :=
  mkEmission ToAll "disaster_updated"
    (JsObject [("type", JsString (kind_name k)); ("data", data)]).

(** routes/resources.js, GET /:disasterId:
    [req.io.to(`disaster_${disasterId}`).emit('resources_updated', result)] *)
Definition emit_resources_listed (disasterId : string) (result : JsValue) : Emission :=
  mkEmission (ToRoom (disaster_room disasterId)) "resources_updated" result.

(** routes/resources.js, POST /:
    [req.io.to(`disaster_${disaster_id}`).emit('resources_updated',
    { type: 'create', data, disaster_id })] *)
Definition emit_resource_created (disaster_id : string) (data : JsValue) : Emission :=
  mkEmission (ToRoom (disaster_room disaster_id)) "resources_updated"
    (JsObject [("type", JsString "create"); ("data", data);
               ("disaster_id", JsString disaster_id)]).

(** routes/socialMedia.js, GET /:disasterId:
    [req.io.to(`disaster_${disasterId}`).emit('social_media_updated', result)] *)
Definition emit_social_media_updated (disasterId : string) (result : JsValue) : Emission :=
  mkEmission (ToRoom (disaster_room disasterId)) "social_media_updated" result.


(** * Further code of the repository *)

(** ** Strings *)

(** Whether a character occurs in a text. *)
Fixpoint has_char (c : ascii) (s : string) : bool :=
  match s with
  | EmptyString => false
  | String c' s' => Ascii.eqb c' c || has_char c s'
  end.

(** ** The cache keys of the other routes *)

(** A query parameter in a template literal: its text, or [undefined]. *)
Definition rendered (f : option string) : string :=
  match f with
  | Some s => s
  | None => "undefined"
  end.

(** [radius = 10000] in the destructuring of [req.query]. *)
Definition radius_or_default (radius : option string) : string :=
  match radius with
  | Some s => s
  | None => "10000"
  end.

(** routes/updates.js: [`official_updates_${disasterId}`] *)
Definition official_updates_cacheKey (disasterId : string) : string :=
  "official_updates_" ++ disasterId.

(** routes/socialMedia.js: [`social_media_${disasterId}`] *)
Definition social_media_cacheKey (disasterId : string) : string :=
  "social_media_" ++ disasterId.

(** routes/resources.js: [`resources_${disasterId}_${lat}_${lon}_${radius}`] *)
Definition resources_cacheKey (disasterId : string) (lat lon radius : option string) : string :=
  "resources_" ++ disasterId ++ "_" ++ rendered lat ++ "_" ++ rendered lon ++ "_"
    ++ radius_or_default radius.

(** The requests that go through the cache, one kind per route. *)
Inductive CachedRequest : Type :=
| ExtractAndGeocode (inputText : string)
| DirectGeocode (location_name : string)
| VerifyImage (image_url : string)
| OfficialUpdates (disasterId : string)
| SocialMedia (disasterId : string)
| Resources (disasterId : string) (lat lon radius : option string).

Definition cacheKey_of (r : CachedRequest) : string :=
  match r with
  | ExtractAndGeocode t => geocode_cacheKey t
  | DirectGeocode n => direct_geocode_cacheKey n
  | VerifyImage u => image_verification_cacheKey u
  | OfficialUpdates d => official_updates_cacheKey d
  | SocialMedia d => social_media_cacheKey d
  | Resources d lat lon radius => resources_cacheKey d lat lon radius
  end.

Definition same_route (a b : CachedRequest) : bool :=
  match a, b with
  | ExtractAndGeocode _, ExtractAndGeocode _
  | DirectGeocode _, DirectGeocode _
  | VerifyImage _, VerifyImage _
  | OfficialUpdates _, OfficialUpdates _
  | SocialMedia _, SocialMedia _
  | Resources _ _ _ _, Resources _ _ _ _ => true
  | _, _ => false
  end.

(** ** utils/logger.js *)

(** [LOG_LEVELS[name]]: a number for the four own names; for every other
    name the lookup gives [undefined] or an inherited member, and each
    comparison with it is false. *)
Definition LOG_LEVELS (name : string) : option Z :=
  if String.eqb name "error" then Some 0
  else if String.eqb name "warn" then Some 1
  else if String.eqb name "info" then Some 2
  else if String.eqb name "debug" then Some 3
  else None.

Definition level_name (l : LogLevel) : string :=
  match l with
  | error => "error"
  | warn => "warn"
  | info => "info"
  | debug => "debug"
  end.

(** [LOG_LEVELS[process.env.LOG_LEVEL || 'info']] *)
Definition currentLogLevel (LOG_LEVEL : option string) : option Z :=
  LOG_LEVELS (if unset LOG_LEVEL then "info" else the_string LOG_LEVEL).

(** [currentLogLevel >= LOG_LEVELS.<level>], the test of each method of
    [logger]. *)
Definition reaches_console (LOG_LEVEL : option string) (l : LogLevel) : bool :=
  match currentLogLevel LOG_LEVEL, LOG_LEVELS (level_name l) with
  | Some current, Some wanted => Z.leb wanted current
  | _, _ => false
  end.

(** The object [formatLogMessage] hands to [JSON.stringify], for a [meta]
    that is a plain object: [{ timestamp, level, message, ...meta }], as the
    map of its fields. *)
Definition logEntry (timestamp : string) (l : LogLevel) (message : string)
  (meta : list (string * JsValue)) : gmap string JsValue :=
  fold_left (fun entry kv => <[fst kv := snd kv]> entry) meta
    (<["message" := JsString message]>
       (<["level" := JsString (level_name l)]>
          (<["timestamp" := JsString timestamp]> ∅))).

(** The last value a list of fields gives to a name. *)
Fixpoint last_value (name : string) (fields : list (string * JsValue)) : option JsValue :=
  match fields with
  | [] => None
  | (k, v) :: rest =>
      match last_value name rest with
      | Some v' => Some v'
      | None => if String.eqb k name then Some v else None
      end
  end.

(** ** middleware/mockAuth.js *)

Record MockUser : Type := mkUser {
  u_id : string; u_name : string; u_role : string; u_permissions : list string
}.

Definition netrunnerX : MockUser :=
  mkUser "netrunnerX" "NetRunner X" "admin" ["create"; "read"; "update"; "delete"].
Definition reliefAdmin : MockUser :=
  mkUser "reliefAdmin" "Relief Administrator" "admin" ["create"; "read"; "update"; "delete"].
Definition fieldWorker : MockUser :=
  mkUser "fieldWorker" "Field Worker" "contributor" ["create"; "read"; "update"].
Definition volunteer : MockUser :=
  mkUser "volunteer" "Volunteer" "contributor" ["create"; "read"].

(** The names every object literal inherits from [Object.prototype]. *)
Definition Object_prototype : list string :=
  ["constructor"; "__defineGetter__"; "__defineSetter__"; "hasOwnProperty";
   "__lookupGetter__"; "__lookupSetter__"; "isPrototypeOf"; "propertyIsEnumerable";
   "toString"; "valueOf"; "__proto__"; "toLocaleString"].

(** What [MOCK_USERS[key]] evaluates to: one of the four users, a member
    inherited from [Object.prototype] (a function or an object, truthy), or
    [undefined]. *)
Inductive Looked : Type :=
| OwnUser (u : MockUser)
| Inherited (name : string)
| NotFound.

Definition MOCK_USERS (key : string) : Looked :=
  if String.eqb key "netrunnerX" then OwnUser netrunnerX
  else if String.eqb key "reliefAdmin" then OwnUser reliefAdmin
  else if String.eqb key "fieldWorker" then OwnUser fieldWorker
  else if String.eqb key "volunteer" then OwnUser volunteer
  else if existsb (String.eqb key) Object_prototype then Inherited key
  else NotFound.

Definition found (l : Looked) : bool :=
  match l with
  | NotFound => false
  | _ => true
  end.

(** [s.substring(n)] *)
Fixpoint substring_from (n : nat) (s : string) : string :=
  match n, s with
  | S n', String _ s' => substring_from n' s'
  | _, _ => s
  end.

(** How a middleware ends: it calls [next()] with [req.user] set, or answers
    itself. *)
Inductive Passage : Type :=
| Next (user : Looked)
| Answered (r : Response).

(** [user.name] and [user.role] in the debug line; for an inherited member
    they are the function's name, or [undefined]. *)
Definition described (user : Looked) : string :=
  match user with
  | OwnUser u => u_name u ++ " (" ++ u_role u ++ ")"
  | Inherited name =>
      (if String.eqb name "constructor" then "Object"
       else if String.eqb name "__proto__" then "undefined"
       else name) ++ " (undefined)"
  | NotFound => "undefined (undefined)"
  end.

(** [mockAuth], with the [Authorization] header and the [user_id] query
    parameter of the request. *)
Definition mockAuth (authorization user_id : option string) : M Passage :=
  let userId := "netrunnerX" in
  let userId :=
    if present authorization && String.prefix "Bearer " (the_string authorization) then
      let token := substring_from 7 (the_string authorization) in
      if found (MOCK_USERS token) then token else userId
    else userId in
  let userId :=
    if present user_id && found (MOCK_USERS (the_string user_id)) then the_string user_id
    else userId in
  let user := MOCK_USERS userId in
  if negb (found user) then
    ret (Answered (json 401 (JsObject [("error", JsString "Authentication required")])))
  else
    logger debug "Request authenticated as:" (described user) ;;
    ret (Next user).

(** [requirePermission(permission)], after a middleware that left [user] in
    [req.user]: reading [permissions] off an inherited member gives
    [undefined], and [includes] on it throws. *)
Definition requirePermission (permission : string) (user : Looked) : Completion Passage :=
  match user with
  | NotFound => Normal (Answered (json 403 (JsObject [("error", JsString "Insufficient permissions")])))
  | Inherited _ => Throw (TypeError "Cannot read properties of undefined (reading 'includes')")
  | OwnUser u =>
      if existsb (String.eqb permission) (u_permissions u) then Normal (Next user)
      else Normal (Answered (json 403 (JsObject [("error", JsString "Insufficient permissions")])))
  end.

(** ** routes/socialMedia.js: the classification of a post *)

(** [toLowerCase] on the bytes of a text: the letters A to Z. (The two code
    points outside ASCII whose lower case holds an ASCII letter, U+0130 and
    U+212A, give an [i] followed by a combining dot and a [k]; neither can
    complete one of the keywords below.) *)
Definition lower_char (c : ascii) : ascii :=
  let n := N_of_ascii c in
  if (N.leb 65 n && N.leb n 90)%bool then ascii_of_N (n + 32) else c.

Fixpoint toLowerCase (s : string) : string :=
  match s with
  | EmptyString => EmptyString
  | String c s' => String (lower_char c) (toLowerCase s')
  end.

(** [text.includes(word)] *)
Fixpoint includes (text word : string) : bool :=
  String.prefix word text ||
  match text with
  | EmptyString => false
  | String _ rest => includes rest word
  end.

Definition urgentKeywords : list string :=
  ["urgent"; "emergency"; "sos"; "help"; "critical"; "immediate"].
Definition mediumKeywords : list string :=
  ["need"; "request"; "assistance"; "support"].

Definition classifyUrgency (content : string) : string :=
  let lowerContent := toLowerCase content in
  if existsb (includes lowerContent) urgentKeywords then "high"
  else if existsb (includes lowerContent) mediumKeywords then "medium"
  else "low".

(** [\w] *)
Definition is_word_char (c : ascii) : bool :=
  let n := N_of_ascii c in
  ((N.leb 65 n && N.leb n 90) || (N.leb 97 n && N.leb n 122) ||
   (N.leb 48 n && N.leb n 57) || N.eqb n 95)%bool.

(** The matches of [/\#\w+/g], left to right: [current] is the hashtag being
    read, if any. *)
Fixpoint scan_hashtags (s : string) (current : option string) : list string :=
  let finished :=
    match current with
    | Some tag => if Nat.ltb 1 (String.length tag) then [tag] else []
    | None => []
    end in
  match s with
  | EmptyString => finished
  | String c rest =>
      match current with
      | Some tag =>
          if is_word_char c then scan_hashtags rest (Some (tag ++ String c EmptyString))
          else (finished ++ scan_hashtags rest (if Ascii.eqb c "#" then Some "#" else None))%list
      | None => scan_hashtags rest (if Ascii.eqb c "#" then Some "#" else None)
      end
  end.

(** The maximal runs of word characters of a text, left to right: the only
    places a pattern [\b(...)\b] of plain words can match. *)
Fixpoint scan_words (s : string) (current : string) : list string :=
  let finished := if String.eqb current "" then [] else [current] in
  match s with
  | EmptyString => finished
  | String c rest =>
      if is_word_char c then scan_words rest (current ++ String c EmptyString)
      else (finished ++ scan_words rest EmptyString)%list
  end.

(** The matches of [/\b(w1|w2|...)\b/gi] *)
Definition word_matches (words : list string) (content : string) : list string :=
  filter (fun run => existsb (String.eqb (toLowerCase run)) words = true)
    (scan_words content EmptyString).

Definition supply_words : list string :=
  ["food"; "water"; "shelter"; "medical"; "supplies"; "rescue"; "evacuation"].
Definition place_words : list string :=
  ["road"; "highway"; "bridge"; "building"; "hospital"; "school"].

Definition extractKeywords (content : string) : list string :=
  dedupe (map toLowerCase (scan_hashtags content None ++ word_matches supply_words content
                           ++ word_matches place_words content)%list).

(** ** routes/disasters.js and routes/resources.js: the writes *)

(** What awaiting a query of the database client gives: its
    [{ data, error }], or a rejection. *)
Inductive Awaited (A : Type) : Type :=
| Replied (r : DbReply A)
| Rejects (e : JsError).
Arguments Replied {A} r.
Arguments Rejects {A} e.

(** The queries of the four writing routes, each with what the route passes
    to it. *)
Record Client : Type := mkClient {
  disasters_insert : JsValue -> Awaited JsValue;
  disasters_audit_trail : string -> Awaited JsValue;
  disasters_update : string -> JsValue -> Awaited JsValue;
  disasters_delete : string -> Awaited JsValue;
  resources_insert : JsValue -> Awaited JsValue
}.

(** What a route did with a request: its answer, what it emitted, the rows it
    handed to [insert] or [update], and its log lines. *)
Record Handled : Type := mkHandled {
  answer : Response;
  emitted : list Emission;
  written : list JsValue;
  logged : list LogLine
}.

(** [req.user.id] *)
Definition req_user_id (user : Looked) : Completion JsValue :=
  match user with
  | OwnUser u => Normal (JsString (u_id u))
  | Inherited _ => Normal JsUndefined
  | NotFound => Throw (TypeError "Cannot read properties of undefined (reading 'id')")
  end.

(** [if (v) target.name = v] *)
Definition when_truthy (name : string) (v : JsValue) : list (string * JsValue) :=
  if truthy v then [(name, v)] else [].

(** The answer of a route's [catch]. *)
Definition caught (doing failure : string) (emitted : list Emission) (written : list JsValue)
    (e : JsError) : Handled :=
  mkHandled (json 500 (JsObject [("error", JsString failure)])) emitted written
            [mkLog error doing (message e)].

Definition not_found : Handled :=
  mkHandled (json 404 (JsObject [("error", JsString "Disaster not found")])) [] [] [].

Section Writes.

Variable platform : Platform.
Variable supabase : Client.
(** the iteration of a string, as the spread [...s] runs it *)
Variable code_points : string -> list string.

(** [`POINT(${lng} ${lat})`] under [if (lat && lng)] *)
Definition location_field (lat lng : JsValue) : list (string * JsValue) :=
  if truthy lat && truthy lng
  then [("location",
         JsString ("POINT(" ++ ToString platform lng ++ " " ++ ToString platform lat ++ ")"))]
  else [].

(** [{ action, user_id, timestamp: new Date().toISOString() }] *)
Definition audit_entry (action : string) (user_id : JsValue) (t : Z) : JsValue :=
  JsObject [("action", JsString action); ("user_id", user_id);
            ("timestamp", JsString (toISOString platform t))].

(** [[...v]] *)
Definition spread (v : JsValue) : Completion (list JsValue) :=
  match v with
  | JsArray items => Normal items
  | JsString s => Normal (map JsString (code_points s))
  | _ => Throw (TypeError "Spread syntax requires ...iterable[Symbol.iterator] to be a function")
  end.

(** POST /disasters, after [mockAuth] left [user] in [req.user]; [t] is the
    clock when the audit entry is made. *)
Definition post_disaster (body : JsValue) (user : Looked) (t : Z) : Handled :=
  let caught := caught "Error creating disaster:" "Failed to create disaster" in
  match prop body "title" with
  | Throw e => caught [] [] e
  | Normal title =>
      let location_name := field body "location_name" in
      let description := field body "description" in
      let tags := field body "tags" in
      let lat := field body "lat" in
      let lng := field body "lng" in
      match req_user_id user with
      | Throw e => caught [] [] e
      | Normal owner_id =>
          if negb (truthy title) || negb (truthy description) then
            mkHandled
              (json 400 (JsObject [("error", JsString "Title and description are required")]))
              [] [] []
          else
            let disasterData :=
              JsObject ([("title", title);
                         ("location_name", location_name);
                         ("description", description);
                         ("tags", js_or tags (JsArray []));
                         ("owner_id", owner_id);
                         ("audit_trail", JsArray [audit_entry "create" owner_id t])]
                        ++ location_field lat lng)%list in
            match disasters_insert supabase disasterData with
            | Rejects e | Replied (DbError e) => caught [] [disasterData] e
            | Replied (DbData data) =>
                let emitted := [emit_disaster_updated create data] in
                match prop data "title" with
                | Throw e => caught emitted [disasterData] e
                | Normal created =>
                    mkHandled (json 201 data) emitted [disasterData]
                      [mkLog info "Disaster created:"
                         (ToString platform created ++ " by " ++ ToString platform owner_id)]
                end
            end
      end
  end.

(** PUT /disasters/:id; [t1] and [t2] are the clock at [updated_at] and at the
    audit entry. *)
Definition put_disaster (id : string) (body : JsValue) (user : Looked) (t1 t2 : Z) : Handled :=
  let caught := caught "Error updating disaster:" "Failed to update disaster" in
  match prop body "title" with
  | Throw e => caught [] [] e
  | Normal title =>
      let location_name := field body "location_name" in
      let description := field body "description" in
      let tags := field body "tags" in
      let lat := field body "lat" in
      let lng := field body "lng" in
      match req_user_id user with
      | Throw e => caught [] [] e
      | Normal user_id =>
          match disasters_audit_trail supabase id with
          | Rejects e => caught [] [] e
          | Replied (DbError e) => if is_PGRST116 e then not_found else caught [] [] e
          | Replied (DbData currentDisaster) =>
              match prop currentDisaster "audit_trail" with
              | Throw e => caught [] [] e
              | Normal audit_trail =>
                  match spread (js_or audit_trail (JsArray [])) with
                  | Throw e => caught [] [] e
                  | Normal trail =>
                      let updateData :=
                        JsObject ([("updated_at", JsString (toISOString platform t1));
                                   ("audit_trail",
                                    JsArray (trail ++ [audit_entry "update" user_id t2]))]
                                  ++ when_truthy "title" title
                                  ++ when_truthy "location_name" location_name
                                  ++ when_truthy "description" description
                                  ++ when_truthy "tags" tags
                                  ++ location_field lat lng)%list in
                      match disasters_update supabase id updateData with
                      | Rejects e | Replied (DbError e) => caught [] [updateData] e
                      | Replied (DbData data) =>
                          let emitted := [emit_disaster_updated update data] in
                          match prop data "title" with
                          | Throw e => caught emitted [updateData] e
                          | Normal updated =>
                              mkHandled (json 200 data) emitted [updateData]
                                [mkLog info "Disaster updated:"
                                   (ToString platform updated ++ " by "
                                    ++ ToString platform user_id)]
                          end
                      end
                  end
              end
          end
      end
  end.

(** DELETE /disasters/:id *)
Definition delete_disaster (id : string) (user : Looked) : Handled :=
  let caught := caught "Error deleting disaster:" "Failed to delete disaster" in
  match req_user_id user with
  | Throw e => caught [] [] e
  | Normal user_id =>
      match disasters_delete supabase id with
      | Rejects e => caught [] [] e
      | Replied (DbError e) => if is_PGRST116 e then not_found else caught [] [] e
      | Replied (DbData data) =>
          let emitted := [emit_disaster_updated delete_ data] in
          match prop data "title" with
          | Throw e => caught emitted [] e
          | Normal deleted =>
              mkHandled
                (json 200 (JsObject [("message", JsString "Disaster deleted successfully")]))
                emitted []
                [mkLog info "Disaster deleted:"
                   (ToString platform deleted ++ " by " ++ ToString platform user_id)]
          end
      end
  end.

(** [req.io.to(`disaster_${disaster_id}`).emit('resources_updated',
    { type: 'create', data, disaster_id })], for the [disaster_id] of a
    request body. *)
Definition emit_resource_created_for (disaster_id data : JsValue) : Emission :=
  mkEmission (ToRoom (disaster_room (ToString platform disaster_id))) "resources_updated"
    (JsObject [("type", JsString "create"); ("data", data); ("disaster_id", disaster_id)]).

(** POST /resources *)
Definition post_resource (body : JsValue) : Handled :=
  let caught := caught "Error creating resource:" "Failed to create resource" in
  match prop body "disaster_id" with
  | Throw e => caught [] [] e
  | Normal disaster_id =>
      let name := field body "name" in
      let location_name := field body "location_name" in
      let type := field body "type" in
      let lat := field body "lat" in
      let lng := field body "lng" in
      if negb (truthy disaster_id) || negb (truthy name) || negb (truthy type) then
        mkHandled
          (json 400 (JsObject [("error", JsString "disaster_id, name, and type are required")]))
          [] [] []
      else
        let resourceData :=
          JsObject ([("disaster_id", disaster_id);
                     ("name", name);
                     ("location_name", location_name);
                     ("type", type)]
                    ++ location_field lat lng)%list in
        match resources_insert supabase resourceData with
        | Rejects e | Replied (DbError e) => caught [] [resourceData] e
        | Replied (DbData data) =>
            let emitted := [emit_resource_created_for disaster_id data] in
            match prop data "name" with
            | Throw e => caught emitted [resourceData] e
            | Normal created =>
                mkHandled (json 201 data) emitted [resourceData]
                  [mkLog info "Resource created:"
                     (ToString platform created ++ " for disaster "
                      ++ ToString platform disaster_id)]
            end
        end
  end.

(** [router.post('/', mockAuth, async (req, res) => ...)]: the request
    passes [mockAuth], then the handler. *)
Definition POST_disasters (authorization user_id : option string) (body : JsValue) (t : Z)
  : M Handled :=
  passage <- mockAuth authorization user_id ;;
  match passage with
  | Answered r => ret (mkHandled r [] [] [])
  | Next user => ret (post_disaster body user t)
  end.

End Writes.

(** ** Client: helpers of the components *)

(** [formatTimeAgo], for a date that parses: the number shown and the text
    after it. The source computes in doubles; the integers here are its
    values as long as the clock and the date lie at most 2^53 ms apart,
    where the subtraction is exact and no quotient is rounded across a whole
    number. *)
Definition formatTimeAgo (now date : Z) : Z * string :=
  let diffInMinutes := (now - date) / (1000 * 60) in
  if Z.ltb diffInMinutes 60 then (diffInMinutes, "m ago")
  else if Z.ltb diffInMinutes 1440 then (diffInMinutes / 60, "h ago")
  else (diffInMinutes / 1440, "d ago").

(** [handleTagToggle]: the new [tags] of the form. *)
Definition handleTagToggle (tags : list string) (tag : string) : list string :=
  if existsb (String.eqb tag) tags
  then filter (fun t => negb (String.eqb t tag) = true) tags
  else (tags ++ [tag])%list.

(** [a === b] on ids: values of the same primitive kind that are equal; two
    arrays or objects met here come from different messages and are never
    the same reference. *)
Definition strict_equals (a b : JsValue) : bool :=
  match a, b with
  | JsUndefined, JsUndefined | JsNull, JsNull => true
  | JsBool x, JsBool y => Bool.eqb x y
  | JsNumber x, JsNumber y => Qeq_bool x y
  | JsString x, JsString y => String.eqb x y
  | _, _ => false
  end.

(** A disaster as the dashboard holds it (the interface [Disaster] of App):
    an object, given by its fields. *)
Abbreviation Disaster := (list (string * JsValue)).

(** The handler of [disaster_updated] in App: the new list of disasters, for
    an event [{ type, data }]. *)
Definition on_disaster_updated (type : string) (data : Disaster) (prev : list Disaster)
  : list Disaster :=
  if String.eqb type "create" then data :: prev
  else if String.eqb type "update" then
    map (fun d => if strict_equals (assoc_get "id" d) (assoc_get "id" data) then data else d) prev
  else if String.eqb type "delete" then
    filter (fun d => negb (strict_equals (assoc_get "id" d) (assoc_get "id" data)) = true) prev
  else prev.

(** ** Scenarios used by the examples below *)

Definition plain_platform : Platform :=
  mkPlatform (fun _ => None) (fun _ => "2024-01-01T00:00:00.000Z") (fun _ => JsNaN)
    (fun _ => None) (fun _ => "") (fun _ => []).


Definition timeout_of {D} : AxiosResult D := Failed (Error "timeout of 10000ms exceeded").

(** No API key configured, every HTTP call times out, the database serves
    every call. *)
Definition all_down : Outside :=
  mkOutside None None None (fun _ => timeout_of) (fun _ => timeout_of) (fun _ => timeout_of)
    (fun _ => Failed (Error "timeout of 30000ms exceeded")) (fun _ => Healthy) 0.

(** The same, with a database that rejects every call. *)
Definition db_down : Outside :=
  mkOutside None None None (fun _ => timeout_of) (fun _ => timeout_of) (fun _ => timeout_of)
    (fun _ => Failed (Error "timeout of 30000ms exceeded"))
    (fun _ => Rejected (Error "fetch failed")) 0.

Definition empty_world (t : Z) : World := mkWorld t ∅ ∅ [].

Definition world_with (t : Z) (key : string) (row : CacheRow) : World :=
  mkWorld t {[ key := row ]} ∅ [].

(** Google Maps is not configured, Mapbox is and answers, OpenStreetMap would
    answer too. *)
Definition mapbox_up : Outside :=
  mkOutside None (Some "pk.token") None
    (fun _ => timeout_of)
    (fun _ => Resolved (mkMapboxData (Some
       [mkMapboxFeature [JsNumber (-74.01); JsNumber 40.72]
          (JsString "Lower Manhattan, New York") (JsString "place.1")])))
    (fun _ => Resolved (Some
       [mkOsmPlace "40.7" "-74.0" (JsString "Manhattan") (JsNumber 7)]))
    (fun _ => Failed (Error "timeout of 30000ms exceeded")) (fun _ => Healthy) 0.

(** No API key configured and OpenStreetMap finds nothing. *)
Definition nothing_found : Outside :=
  mkOutside None None None (fun _ => timeout_of) (fun _ => timeout_of)
    (fun _ => Resolved (Some []))
    (fun _ => Failed (Error "timeout of 30000ms exceeded")) (fun _ => Healthy) 0.

(** Gemini is configured and answers in prose, without a JSON object. *)
Definition gemini_prose : Outside :=
  mkOutside None None (Some "key") (fun _ => timeout_of) (fun _ => timeout_of)
    (fun _ => timeout_of)
    (fun _ => Resolved (Some "The image appears to show genuine flood damage."))
    (fun _ => Healthy) 0.



(** The result of [verifyImage], [undefined] if it threw. *)
Definition verified (run : Completion JsValue * World) : JsValue :=
  match fst run with
  | Normal v => v
  | Throw _ => JsUndefined
  end.




(** A database that stores what it is given, and one whose constraints
    refuse every write. *)
Definition storing : Client :=
  mkClient (fun row => Replied (DbData row))
           (fun _ => Replied (DbData (JsObject [("audit_trail", JsArray [])])))
           (fun _ row => Replied (DbData row))
           (fun id => Replied (DbData (JsObject [("id", JsString id)])))
           (fun row => Replied (DbData row)).

Definition constraint_violation : JsError :=
  mkError (Some "23502") "null value violates not-null constraint".

Definition refusing : Client :=
  mkClient (fun _ => Replied (DbError constraint_violation))
           (fun _ => Replied (DbError PGRST116))
           (fun _ _ => Replied (DbError constraint_violation))
           (fun _ => Replied (DbError PGRST116))
           (fun _ => Replied (DbError constraint_violation)).

Definition flood : JsValue :=
  JsObject [("title", JsString "Flood"); ("description", JsString "River over its banks");
            ("lat", JsNumber 0); ("lng", JsNumber 10)].

Definition shelter : JsValue :=
  JsObject [("disaster_id", JsString "d1"); ("name", JsString "Shelter");
            ("type", JsString "shelter")].

(** * Properties *)

(** ** The definitions on small inputs *)

Example base64_three_bytes : base64 "Man" = "TWFu".
Proof. reflexivity. Qed.

Example base64_two_bytes : base64 "Ma" = "TWE=".
Proof. reflexivity. Qed.

Example base64_one_byte : base64 "M" = "TQ==".
Proof. reflexivity. Qed.

Example geocode_cacheKey_short_text :
  geocode_cacheKey "Lower Manhattan, NYC" = "geocode_TG93ZXIgTWFuaGF0dGFuLCBOWUM=".
Proof. reflexivity. Qed.

Example geocode_cacheKey_long_text :
  geocode_cacheKey "Lower Manhattan, New York City"
    = "geocode_TG93ZXIgTWFuaGF0dGFuLCBOZXcgWW9y".
Proof. reflexivity. Qed.

Example json_match_greedy :
  json_match "Here: {'a': {'b': 1}} and {'c': 2}. Bye" = Some "{'a': {'b': 1}} and {'c': 2}".
Proof. reflexivity. Qed.

Example json_match_none : json_match "closing } before opening {" = None.
Proof. reflexivity. Qed.

Example dedupe_keeps_first : dedupe ["Main"; "Oak"; "Main"; "Elm"; "Oak"] = ["Main"; "Oak"; "Elm"].
Proof. reflexivity. Qed.

Example mapbox_answers_second :
  invoked (try_geocoders (geocoders plain_platform mapbox_up (JsString "Lower Manhattan, NYC")))
    = ["geocodeWithGoogleMaps"; "geocodeWithMapbox"].
Proof. reflexivity. Qed.

Example heuristic_score_at_zero :
  field (generateFallbackVerification all_down) "authenticity_score" = JsNumber 60 /\
  field (generateFallbackVerification all_down) "flags"
    = JsArray [JsString "requires_manual_review"].
Proof. split; reflexivity. Qed.

(** ** The cache *)

Section CacheFacts.

Variable outside : Outside.

Lemma getCachedData_healthy (key : string) (w : World) :
  db outside (CacheSelect key) = Healthy ->
  db outside (CacheDelete key) = Healthy ->
  getCachedData outside key w =
    match cache w !! key with
    | Some row =>
        if Z.ltb (expires_at row) (now w)
        then (Normal JsNull, set_cache (delete key (cache w)) w)
        else (Normal (value row), w)
    | None => (Normal JsNull, w)
    end.
Proof.
  intros Hsel Hdel.
  unfold getCachedData, try_catch, bind, cache_select, cache_delete.
  rewrite Hsel, Hdel. cbn.
  destruct (cache w !! key) as [row|]; cbn; [|reflexivity].
  destruct (Z.ltb (expires_at row) (now w)); reflexivity.
Qed.



(** What a failing store call leaves of [getCachedData]. *)
Lemma getCachedData_select_failing (key : string) (w : World) :
  db outside (CacheSelect key) <> Healthy ->
  exists w', getCachedData outside key w = (Normal JsNull, w') /\ cache w' = cache w.
Proof.
  intros Hsel.
  unfold getCachedData, try_catch, bind, cache_select.
  destruct (db outside (CacheSelect key)) as [|e|e]; [congruence| |]; cbn.
  - destruct (is_PGRST116 e); cbn; eexists; split; reflexivity.
  - eexists; split; reflexivity.
Qed.

Lemma getCachedData_never_throws (key : string) (w : World) :
  exists v w', getCachedData outside key w = (Normal v, w').
Proof.
  unfold getCachedData, try_catch, bind, cache_select, cache_delete.
  destruct (db outside (CacheSelect key)) as [|e|e]; cbn.
  - destruct (cache w !! key) as [row|]; cbn; [|eauto].
    destruct (Z.ltb (expires_at row) (now w)); [|eauto].
    destruct (db outside (CacheDelete key)); cbn; eauto.
  - destruct (is_PGRST116 e); cbn; eauto.
  - eauto.
Qed.

Lemma setCachedData_never_throws (key : string) (v : JsValue) (ttl : option Z) (w : World) :
  exists w', setCachedData outside key v ttl w = (Normal tt, w').
Proof.
  unfold setCachedData, try_catch, bind, cache_upsert.
  destruct (db outside (CacheUpsert key)); cbn; [destruct (cache w !! key)| |]; cbn; eauto.
Qed.

Lemma setCachedData_upsert_failing (key : string) (v : JsValue) (ttl : option Z) (w : World) :
  db outside (CacheUpsert key) <> Healthy ->
  exists w', setCachedData outside key v ttl w = (Normal tt, w') /\ cache w' = cache w.
Proof.
  intros Hups.
  unfold setCachedData, try_catch, bind, cache_upsert.
  destruct (db outside (CacheUpsert key)); [congruence| |]; cbn; eexists; split; reflexivity.
Qed.

Lemma getCachedData_delete_failing (key : string) (row : CacheRow) (w : World) :
  db outside (CacheSelect key) = Healthy ->
  db outside (CacheDelete key) <> Healthy ->
  cache w !! key = Some row ->
  expires_at row < now w ->
  exists w', getCachedData outside key w = (Normal JsNull, w') /\ cache w' = cache w.
Proof.
  intros Hsel Hdel Hrow Hexp.
  unfold getCachedData, try_catch, bind, cache_select, cache_delete.
  rewrite Hsel. cbn. rewrite Hrow. cbn.
  destruct (Z.ltb_spec (expires_at row) (now w)); [|lia].
  destruct (db outside (CacheDelete key)); [congruence| |]; cbn; eexists; split; reflexivity.
Qed.

(** The sweep removes the rows whose [expires_at] is before the clock, and
    keeps a row that expires at this very instant, as the lookup does. *)
Lemma clearExpiredCache_healthy (key : string) (w : World) :
  db outside CacheSweep = Healthy ->
  cache (snd (clearExpiredCache outside w)) !! key =
    match cache w !! key with
    | Some row => if Z.leb (now w) (expires_at row) then Some row else None
    | None => None
    end.
Proof.
  intros Hs. unfold clearExpiredCache, try_catch, bind, cache_delete_expired.
  rewrite Hs. cbn.
  destruct (cache w !! key) as [row|] eqn:Hrow.
  - destruct (Z.leb_spec (now w) (expires_at row)) as [Hle|Hlt].
    + apply map_lookup_filter_Some. split; [exact Hrow|]. cbn. apply Z.ltb_ge. exact Hle.
    + apply map_lookup_filter_None. right. intros row' Hrow'. cbn.
      rewrite Hrow in Hrow'. injection Hrow' as <-.
      apply Z.ltb_lt in Hlt. congruence.
  - apply map_lookup_filter_None. left. exact Hrow.
Qed.

(** C7, as the code has it: on a store that serves the calls, [getCachedData]
    returns the stored value exactly when a row for the key is present and the
    clock has not passed its [expires_at] (now <= expires_at: the row is
    still returned at the instant of expiry); otherwise it returns [null],
    and a row whose [expires_at] is before the clock is deleted. *)
Theorem getCachedData_returns_unexpired (key : string) (w : World) :
  db outside (CacheSelect key) = Healthy ->
  db outside (CacheDelete key) = Healthy ->
  getCachedData outside key w =
    match cache w !! key with
    | Some row =>
        if Z.leb (now w) (expires_at row)
        then (Normal (value row), w)
        else (Normal JsNull, set_cache (delete key (cache w)) w)
    | None => (Normal JsNull, w)
    end.
Proof.
  intros Hsel Hdel. rewrite getCachedData_healthy by assumption.
  destruct (cache w !! key) as [row|]; [|reflexivity].
  destruct (Z.ltb_spec (expires_at row) (now w)), (Z.leb_spec (now w) (expires_at row));
    first [reflexivity | lia].
Qed.

(** C8: a failing store call never reaches the caller as an error. Whatever
    the store does, [getCachedData] and [setCachedData] return normally; when
    the read fails, or the deletion of a stale row fails, [getCachedData]
    returns [null], and when the write fails [setCachedData] returns with the
    table unchanged. *)
Theorem cache_failure_is_not_raised (key : string) (v : JsValue) (ttl : option Z) (w : World) :
  (exists r w', getCachedData outside key w = (Normal r, w')) /\
  (exists w', setCachedData outside key v ttl w = (Normal tt, w')) /\
  (db outside (CacheSelect key) <> Healthy ->
   exists w', getCachedData outside key w = (Normal JsNull, w') /\ cache w' = cache w) /\
  (forall row,
     db outside (CacheSelect key) = Healthy ->
     db outside (CacheDelete key) <> Healthy ->
     cache w !! key = Some row ->
     expires_at row < now w ->
     exists w', getCachedData outside key w = (Normal JsNull, w') /\ cache w' = cache w) /\
  (db outside (CacheUpsert key) <> Healthy ->
   exists w', setCachedData outside key v ttl w = (Normal tt, w') /\ cache w' = cache w).
Proof.
  split; [apply getCachedData_never_throws|].
  split; [apply setCachedData_never_throws|].
  split; [apply getCachedData_select_failing|].
  split; [intros row; apply getCachedData_delete_failing | apply setCachedData_upsert_failing].
Qed.


End CacheFacts.

(** C7, as stated, fails at the instant of expiry: the row is present, the
    clock equals its [expires_at] (so now < expires_at does not hold), and
    the stored value is returned. *)
Lemma getCachedData_strict_expiry_refuted :
  ~ (forall (o : Outside) (key : string) (w : World) (row : CacheRow),
       db o (CacheSelect key) = Healthy ->
       db o (CacheDelete key) = Healthy ->
       cache w !! key = Some row ->
       ~ (now w < expires_at row) ->
       fst (getCachedData o key w) = Normal JsNull).
Proof.
  intros H.
  specialize (H all_down "k" (world_with 1000 "k" (mkRow (JsString "v") 1000))
                (mkRow (JsString "v") 1000) eq_refl eq_refl).
  rewrite getCachedData_healthy in H by reflexivity.
  unfold world_with in H. cbn in H.
  rewrite lookup_singleton_eq in H. cbn in H.
  specialize (H eq_refl ltac:(lia)). discriminate H.
Qed.

Lemma getCachedData_returns_unexpired_witness :
  db all_down (CacheSelect "k") = Healthy /\
  db all_down (CacheDelete "k") = Healthy /\
  getCachedData all_down "k" (world_with 1000 "k" (mkRow (JsString "v") 1000)) =
    (Normal (JsString "v"), world_with 1000 "k" (mkRow (JsString "v") 1000)) /\
  getCachedData all_down "k" (world_with 1001 "k" (mkRow (JsString "v") 1000)) =
    (Normal JsNull, mkWorld 1001 (delete "k" {[ "k" := mkRow (JsString "v") 1000 ]}) ∅ []).
Proof.
  split; [reflexivity|]. split; [reflexivity|].
  rewrite !(getCachedData_returns_unexpired all_down "k" _ eq_refl eq_refl).
  unfold world_with. cbn. rewrite lookup_singleton_eq. split; reflexivity.
Defined.

Lemma cache_failure_is_not_raised_witness :
  db db_down (CacheSelect "k") <> Healthy /\
  db db_down (CacheUpsert "k") <> Healthy /\
  (exists w', getCachedData db_down "k" (world_with 0 "k" (mkRow (JsString "v") 1000))
              = (Normal JsNull, w')) /\
  (exists w', setCachedData db_down "k" (JsString "v") (Some 3600) (empty_world 0)
              = (Normal tt, w') /\ cache w' = ∅).
Proof.
  split; [discriminate|]. split; [discriminate|].
  destruct (cache_failure_is_not_raised db_down "k" (JsString "v") (Some 3600)
              (world_with 0 "k" (mkRow (JsString "v") 1000))) as (_ & _ & Hget & _ & _).
  destruct (cache_failure_is_not_raised db_down "k" (JsString "v") (Some 3600)
              (empty_world 0)) as (_ & _ & _ & _ & Hset).
  split.
  - destruct Hget as (w' & Hw' & _); [discriminate|]. exists w'. exact Hw'.
  - destruct Hset as (w' & Hw' & Hc); [discriminate|]. exists w'. split; assumption.
Defined.



(** ** The geocoding fallback chain *)

Section ChainFacts.

Lemma try_geocoders_fail_step (g : Geocoder) (rest : list Geocoder) :
  fails g ->
  outcome (try_geocoders (g :: rest)) = outcome (try_geocoders rest) /\
  invoked (try_geocoders (g :: rest)) = g_name g :: invoked (try_geocoders rest) /\
  warnings (try_geocoders (g :: rest)) =
    (option_list (reason_of g) ++ warnings (try_geocoders rest))%list.
Proof.
  unfold fails, reason_of. cbn.
  destruct (g_call g tt) as [result|e]; cbn.
  - intros ->. cbn. auto.
  - auto.
Qed.

Lemma try_geocoders_all_fail (gs : list Geocoder) :
  Forall fails gs ->
  outcome (try_geocoders gs) = Throw (Error "All geocoding services failed") /\
  invoked (try_geocoders gs) = map g_name gs /\
  warnings (try_geocoders gs) = omap reason_of gs.
Proof.
  induction 1 as [|g rest Hg _ (IHo & IHi & IHw)]; [cbn; auto|].
  destruct (try_geocoders_fail_step g rest Hg) as (Ho & Hi & Hw).
  rewrite Ho, Hi, Hw, IHo, IHi, IHw.
  repeat split. cbn [omap list_omap]. destruct (reason_of g); reflexivity.
Qed.

Lemma try_geocoders_first_success (pre post : list Geocoder) (g : Geocoder) (r : JsValue) :
  Forall fails pre ->
  g_call g tt = Normal r ->
  truthy r = true ->
  outcome (try_geocoders (pre ++ g :: post)) = Normal r /\
  invoked (try_geocoders (pre ++ g :: post)) = map g_name (pre ++ [g]) /\
  warnings (try_geocoders (pre ++ g :: post)) = omap reason_of pre.
Proof.
  intros Hpre Hg Hr.
  induction Hpre as [|q pre Hq _ (IHo & IHi & IHw)].
  - cbn. rewrite Hg, Hr. cbn. auto.
  - destruct (try_geocoders_fail_step q (pre ++ g :: post) Hq) as (Ho & Hi & Hw).
    change ((q :: pre) ++ g :: post)%list with (q :: (pre ++ g :: post))%list.
    rewrite Ho, Hi, Hw, IHo, IHi, IHw.
    repeat split. cbn [omap list_omap]. destruct (reason_of q); reflexivity.
Qed.

Lemma invoked_is_a_prefix (gs : list Geocoder) :
  invoked (try_geocoders gs) `prefix_of` map g_name gs.
Proof.
  induction gs as [|g rest IH]; cbn; [reflexivity|].
  destruct (g_call g tt) as [result|e]; [destruct (truthy result)|]; cbn.
  - apply prefix_cons, prefix_nil.
  - apply prefix_cons, IH.
  - apply prefix_cons, IH.
Qed.

Lemma warned_frame (ws : list string) (w : World) :
  cache (warned w ws) = cache w /\ now (warned w ws) = now w /\
  reports (warned w ws) = reports w /\
  logs (warned w ws) = (logs w ++ map (mkLog warn "Geocoding attempt failed:") ws)%list.
Proof.
  revert w. induction ws as [|m ws IH]; intros w; cbn.
  - rewrite app_nil_r. auto.
  - destruct (IH (add_log (mkLog warn "Geocoding attempt failed:" m) w)) as (Hc & Hn & Hr & Hl).
    unfold warned in *. rewrite Hc, Hn, Hr, Hl. cbn. rewrite <- app_assoc. auto.
Qed.

Lemma geocodeLocation_run (P : Platform) (O : Outside) (locationName : JsValue) (w : World) :
  geocodeLocation P O locationName w =
    (outcome (try_geocoders (geocoders P O locationName)),
     warned w (warnings (try_geocoders (geocoders P O locationName)))).
Proof. reflexivity. Qed.

(** C5: the chain calls the geocoders in the order of the list and stops at
    the first one that resolves to a truthy result: when every geocoder
    before [g] fails and [g] succeeds with [r], the chain returns [r], the
    geocoders called are exactly those up to and including [g], in list
    order, and none after [g] is called; each failure before [g] moved the
    chain on to the next geocoder. Whatever the geocoders do, those called
    are an initial part of the list. [geocodeLocation] is the chain on its
    three geocoders and returns [r] as well. *)
Theorem chain_returns_first_success
  (gs pre post : list Geocoder) (g : Geocoder) (r : JsValue) :
  gs = (pre ++ g :: post)%list ->
  Forall fails pre ->
  g_call g tt = Normal r ->
  truthy r = true ->
  outcome (try_geocoders gs) = Normal r /\
  invoked (try_geocoders gs) = (map g_name pre ++ [g_name g])%list /\
  length (invoked (try_geocoders gs)) = S (length pre) /\
  (forall any : list Geocoder, invoked (try_geocoders any) `prefix_of` map g_name any) /\
  (forall (P : Platform) (O : Outside) (locationName : JsValue) (w : World),
      geocoders P O locationName = gs ->
      fst (geocodeLocation P O locationName w) = Normal r).
Proof.
  intros -> Hpre Hg Hr.
  destruct (try_geocoders_first_success pre post g r Hpre Hg Hr) as (Ho & Hi & _).
  split; [exact Ho|]. rewrite Hi, map_app.
  split; [reflexivity|]. split; [|split].
  - rewrite length_app, length_map. cbn. lia.
  - apply invoked_is_a_prefix.
  - intros P O loc w Hgs. rewrite geocodeLocation_run, Hgs. cbn. exact Ho.
Qed.

(** C3, as the code has it: when every geocoder of the list fails, the chain
    has called each of them, in order, and throws an Error whose only content
    is the fixed message 'All geocoding services failed'; the reasons are not
    in it: the message of each geocoder that threw is given to [logger.warn],
    one line per throw, in order. *)
Theorem chain_total_failure (gs : list Geocoder) :
  Forall fails gs ->
  outcome (try_geocoders gs) = Throw (Error "All geocoding services failed") /\
  invoked (try_geocoders gs) = map g_name gs /\
  warnings (try_geocoders gs) = omap reason_of gs /\
  (forall (P : Platform) (O : Outside) (locationName : JsValue) (w : World),
      geocoders P O locationName = gs ->
      fst (geocodeLocation P O locationName w) = Throw (Error "All geocoding services failed") /\
      logs (snd (geocodeLocation P O locationName w)) =
        (logs w ++ map (mkLog warn "Geocoding attempt failed:") (omap reason_of gs))%list /\
      cache (snd (geocodeLocation P O locationName w)) = cache w).
Proof.
  intros Hall.
  destruct (try_geocoders_all_fail gs Hall) as (Ho & Hi & Hw).
  split; [exact Ho|]. split; [exact Hi|]. split; [exact Hw|].
  intros P O loc w Hgs. rewrite geocodeLocation_run, Hgs, Hw. cbn.
  split; [exact Ho|]. split; apply warned_frame.
Qed.

End ChainFacts.

(** C3, as stated, fails: no reading of the thrown error gives back the
    per-geocoder reasons. With no API key configured, the chain fails with
    the same error when OpenStreetMap times out and when it finds nothing,
    though the third reason differs. *)
Lemma chain_failure_carries_no_reasons :
  ~ (exists reasons_in : JsError -> list string,
       forall gs : list Geocoder,
         Forall fails gs ->
         forall e, outcome (try_geocoders gs) = Throw e ->
                   reasons_in e = omap reason_of gs).
Proof.
  intros [reasons_in H].
  pose (loc := JsString "Lower Manhattan, NYC").
  assert (H1 := H (geocoders plain_platform all_down loc)
                  ltac:(repeat constructor) _ eq_refl).
  assert (H2 := H (geocoders plain_platform nothing_found loc)
                  ltac:(repeat constructor) _ eq_refl).
  cbn in H1, H2. rewrite H1 in H2. discriminate H2.
Qed.

Lemma chain_returns_first_success_witness :
  Forall fails (take 1 (geocoders plain_platform mapbox_up (JsString "Lower Manhattan, NYC"))) /\
  outcome (try_geocoders (geocoders plain_platform mapbox_up (JsString "Lower Manhattan, NYC")))
    = Normal (JsObject [("lat", JsNumber 40.72); ("lng", JsNumber (-74.01));
                        ("formatted_address", JsString "Lower Manhattan, New York");
                        ("place_id", JsString "place.1");
                        ("service", JsString "mapbox")]) /\
  invoked (try_geocoders (geocoders plain_platform mapbox_up (JsString "Lower Manhattan, NYC")))
    = ["geocodeWithGoogleMaps"; "geocodeWithMapbox"].
Proof.
  pose (gs := geocoders plain_platform mapbox_up (JsString "Lower Manhattan, NYC")).
  assert (Hpre : Forall fails (take 1 gs)) by (repeat constructor).
  split; [exact Hpre|].
  destruct (chain_returns_first_success gs (take 1 gs) (drop 2 gs)
              (mkGeocoder "geocodeWithMapbox"
                 (fun _ => geocodeWithMapbox plain_platform mapbox_up
                             (JsString "Lower Manhattan, NYC")))
              _ eq_refl Hpre eq_refl eq_refl) as (Ho & Hi & _).
  split; [exact Ho | exact Hi].
Defined.

Lemma chain_total_failure_witness :
  Forall fails (geocoders plain_platform all_down (JsString "Lower Manhattan, NYC")) /\
  outcome (try_geocoders (geocoders plain_platform all_down (JsString "Lower Manhattan, NYC")))
    = Throw (Error "All geocoding services failed") /\
  warnings (try_geocoders (geocoders plain_platform all_down (JsString "Lower Manhattan, NYC")))
    = ["Google Maps API key not configured"; "Mapbox access token not configured";
       "timeout of 10000ms exceeded"].
Proof.
  assert (Hall : Forall fails (geocoders plain_platform all_down
                                 (JsString "Lower Manhattan, NYC")))
    by (repeat constructor).
  split; [exact Hall|].
  destruct (chain_total_failure _ Hall) as (Ho & _ & Hw & _).
  split; [exact Ho | exact Hw].
Defined.

(** ** Real-time fan-out *)

Section FanOutFacts.

Lemma disaster_room_inj (d d' : string) : disaster_room d = disaster_room d' -> d = d'.
Proof. unfold disaster_room. cbv [String.append]. congruence. Qed.

Lemma after_events_snoc (history : list SocketEvent) (e : SocketEvent) :
  after_events (history ++ [e]) = on_event (after_events history) e.
Proof. unfold after_events. rewrite fold_left_app. reflexivity. Qed.

(** Every room a connected socket is in was entered by a [join_disaster]
    message of that socket. *)
Lemma rooms_come_from_joins (history : list SocketEvent) (sid room : string)
  (rooms : gset string) :
  after_events history !! sid = Some rooms ->
  room ∈ rooms ->
  exists d, room = disaster_room d /\ In (JoinDisaster sid d) history.
Proof.
  revert rooms. induction history as [|e history IH] using rev_ind; intros rooms Hsid Hin.
  - unfold after_events in Hsid. cbn in Hsid. rewrite lookup_empty in Hsid. discriminate.
  - rewrite after_events_snoc in Hsid.
    assert (Hkeep : forall rs, after_events history !! sid = Some rs -> room ∈ rs ->
                    exists d, room = disaster_room d /\ In (JoinDisaster sid d) (history ++ [e])).
    { intros rs Hrs Hroom. destruct (IH rs Hrs Hroom) as (d & -> & Hd).
      exists d. split; [reflexivity|]. apply in_or_app. left. exact Hd. }
    destruct e as [s|s d|s]; cbn in Hsid.
    + destruct (decide (s = sid)) as [->|Hne].
      * rewrite lookup_insert_eq in Hsid. injection Hsid as <-. set_solver.
      * rewrite lookup_insert_ne in Hsid by exact Hne. eauto.
    + destruct (after_events history !! s) as [rs|] eqn:Hs; [|eauto].
      destruct (decide (s = sid)) as [->|Hne].
      * rewrite lookup_insert_eq in Hsid. injection Hsid as <-.
        apply elem_of_union in Hin as [Hin|Hin].
        -- apply elem_of_singleton in Hin as ->. exists d. split; [reflexivity|].
           apply in_or_app. right. left. reflexivity.
        -- eauto.
      * rewrite lookup_insert_ne in Hsid by exact Hne. eauto.
    + destruct (decide (s = sid)) as [->|Hne].
      * rewrite lookup_delete_eq in Hsid. discriminate.
      * rewrite lookup_delete_ne in Hsid by exact Hne. eauto.
Qed.

Lemma recipients_of_room (io : Sockets) (e : Emission) (room sid : string) :
  target e = ToRoom room ->
  sid ∈ recipients io e <-> exists rooms, io !! sid = Some rooms /\ room ∈ rooms.
Proof.
  intros Ht. unfold recipients. rewrite Ht, elem_of_dom. split.
  - intros [rooms Hl]. apply map_lookup_filter_Some in Hl as [Hl Hin]. eauto.
  - intros (rooms & Hl & Hin). exists rooms. apply map_lookup_filter_Some. auto.
Qed.

Lemma room_emission_needs_join (history : list SocketEvent) (e : Emission) (sid d : string) :
  target e = ToRoom (disaster_room d) ->
  sid ∈ recipients (after_events history) e ->
  In (JoinDisaster sid d) history.
Proof.
  intros Ht Hin. apply (recipients_of_room _ _ _ _ Ht) in Hin as (rooms & Hl & Hroom).
  destruct (rooms_come_from_joins _ _ _ _ Hl Hroom) as (d' & Heq & Hd').
  apply disaster_room_inj in Heq as ->. exact Hd'.
Qed.

(** C2, as the code has it: the events the resource and social-media routes
    send ([resources_updated], [social_media_updated]) go to the room of their
    disaster, so a socket receives one only if it has sent [join_disaster]
    for that disaster, and a socket that joined only disaster A receives none
    sent for another disaster B. The [disaster_updated] events of the disaster
    routes (create, update, delete) are sent with [io.emit]: every connected
    socket receives them, whatever rooms it joined. *)
Theorem fan_out_scope
  (history : list SocketEvent) (sid d : string) (result data : JsValue) (k : MutationKind) :
  (forall e : Emission,
      In e [emit_resources_listed d result; emit_resource_created d data;
            emit_social_media_updated d result] ->
      (sid ∈ recipients (after_events history) e -> In (JoinDisaster sid d) history) /\
      (forall A : string,
          d <> A ->
          (forall d', In (JoinDisaster sid d') history -> d' = A) ->
          sid ∉ recipients (after_events history) e)) /\
  recipients (after_events history) (emit_disaster_updated k data) = dom (after_events history).
Proof.
  split; [|reflexivity].
  intros e He.
  assert (Ht : target e = ToRoom (disaster_room d)).
  { cbn in He. destruct He as [<-|[<-|[<-|[]]]]; reflexivity. }
  split.
  - apply room_emission_needs_join, Ht.
  - intros A Hne Honly Hin. apply Hne, Honly.
    apply (room_emission_needs_join history e sid d Ht Hin).
Qed.

End FanOutFacts.

(** C2, as stated, fails for the disaster routes: a socket that joined only
    the room of disaster A receives the [disaster_updated] event of the
    creation of disaster B. *)
Lemma disaster_updated_reaches_every_socket :
  ~ (forall (history : list SocketEvent) (sid d : string) (k : MutationKind) (data : JsValue),
       field data "id" = JsString d ->
       sid ∈ recipients (after_events history) (emit_disaster_updated k data) ->
       In (JoinDisaster sid d) history).
Proof.
  intros H.
  specialize (H [Connection "s1"; JoinDisaster "s1" "A"] "s1" "B" create
                (JsObject [("id", JsString "B"); ("title", JsString "Flood")]) eq_refl).
  assert (Hin : "s1" ∈ recipients (after_events [Connection "s1"; JoinDisaster "s1" "A"])
                       (emit_disaster_updated create
                          (JsObject [("id", JsString "B"); ("title", JsString "Flood")]))).
  { unfold recipients, after_events. cbn. rewrite lookup_insert_eq.
    apply elem_of_dom. eexists. apply lookup_insert_eq. }
  destruct (H Hin) as [Heq|[Heq|[]]]; discriminate Heq.
Qed.

Lemma fan_out_scope_witness :
  "B" <> "A" /\
  ("s1" ∉ recipients (after_events [Connection "s1"; JoinDisaster "s1" "A"])
          (emit_social_media_updated "B" JsNull)) /\
  ("s1" ∉ recipients (after_events [Connection "s1"; JoinDisaster "s1" "A"])
          (emit_resource_created "B" JsNull)).
Proof.
  split; [discriminate|].
  destruct (fan_out_scope [Connection "s1"; JoinDisaster "s1" "A"] "s1" "B" JsNull JsNull create)
    as [H _].
  assert (Honly : forall d', In (JoinDisaster "s1" d')
                               [Connection "s1"; JoinDisaster "s1" "A"] -> d' = "A").
  { intros d' [Heq|[Heq|[]]]; [discriminate Heq | congruence]. }
  split.
  - destruct (H (emit_social_media_updated "B" JsNull) ltac:(cbn; auto)) as [_ Hscope].
    apply (Hscope "A"); [discriminate | exact Honly].
  - destruct (H (emit_resource_created "B" JsNull) ltac:(cbn; auto)) as [_ Hscope].
    apply (Hscope "A"); [discriminate | exact Honly].
Defined.

(** ** Cache keys *)

Section KeyFacts.

Local Ltac div_lia := zify; Z.to_euclidean_division_equations; lia.

Lemma slice0_empty (n : nat) : slice0 n EmptyString = EmptyString.
Proof. destruct n; reflexivity. Qed.

(** Cutting the encoding after 4k characters encodes the first 3k bytes. *)
Lemma slice0_base64 (k : nat) (bytes : string) :
  slice0 (k * 4) (base64 bytes) = base64 (slice0 (k * 3) bytes).
Proof.
  revert bytes. induction k as [|k IH]; intros bytes.
  - destruct bytes; reflexivity.
  - destruct bytes as [|a [|b [|c rest]]]; cbn [Nat.mul Nat.add slice0 base64].
    + reflexivity.
    + rewrite !slice0_empty. reflexivity.
    + rewrite !slice0_empty. reflexivity.
    + rewrite IH. reflexivity.
Qed.

Lemma slice0_32_base64 (bytes : string) :
  slice0 32 (base64 bytes) = base64 (slice0 24 bytes).
Proof. exact (slice0_base64 8 bytes). Qed.

Lemma in_sextets (n : N) : (n < 64)%N -> In n sextets.
Proof.
  intros Hn. unfold sextets. rewrite <- (N2Nat.id n).
  apply in_map, in_seq. lia.
Qed.

Lemma base64_char_inj (m n : N) :
  (m < 64)%N -> (n < 64)%N -> base64_char m = base64_char n -> m = n.
Proof.
  intros Hm Hn Heq.
  assert (Hall : forallb (fun m => forallb (fun n =>
            implb (Ascii.eqb (base64_char m) (base64_char n)) (N.eqb m n)) sextets) sextets = true)
    by (vm_compute; reflexivity).
  rewrite forallb_forall in Hall. specialize (Hall m (in_sextets m Hm)).
  rewrite forallb_forall in Hall. specialize (Hall n (in_sextets n Hn)).
  rewrite Heq, Ascii.eqb_refl in Hall. cbn in Hall. apply N.eqb_eq. exact Hall.
Qed.

Lemma base64_char_not_pad (n : N) : (n < 64)%N -> base64_char n <> "="%char.
Proof.
  intros Hn Heq.
  assert (Hall : forallb (fun n => negb (Ascii.eqb (base64_char n) "=")) sextets = true)
    by (vm_compute; reflexivity).
  rewrite forallb_forall in Hall. specialize (Hall n (in_sextets n Hn)).
  rewrite Heq in Hall. discriminate Hall.
Qed.

Lemma sextet_bounds (a b : N) :
  (a < 256)%N -> (b < 256)%N ->
  (sextet1 a < 64 /\ sextet2 a b < 64 /\ sextet3 a b < 64 /\ sextet4 a < 64)%N.
Proof. unfold sextet1, sextet2, sextet3, sextet4. intros Ha Hb. repeat split; div_lia. Qed.

Lemma N_of_ascii_inj (a b : ascii) : N_of_ascii a = N_of_ascii b -> a = b.
Proof.
  intros H. rewrite <- (ascii_N_embedding a), <- (ascii_N_embedding b), H. reflexivity.
Qed.

Lemma head_inj (a a' b b' : N) :
  (a < 256)%N -> (a' < 256)%N -> (b < 256)%N -> (b' < 256)%N ->
  base64_char (sextet1 a) = base64_char (sextet1 a') ->
  base64_char (sextet2 a b) = base64_char (sextet2 a' b') ->
  a = a' /\ (b / 16 = b' / 16)%N.
Proof.
  intros Ha Ha' Hb Hb' H1 H2.
  apply base64_char_inj in H1; [|apply (sextet_bounds a b); assumption
                                |apply (sextet_bounds a' b'); assumption].
  apply base64_char_inj in H2; [|apply (sextet_bounds a b); assumption
                                |apply (sextet_bounds a' b'); assumption].
  unfold sextet1, sextet2 in *. split; div_lia.
Qed.

Lemma tail_inj (b b' c c' : N) :
  (b < 256)%N -> (b' < 256)%N -> (c < 256)%N -> (c' < 256)%N ->
  (b / 16 = b' / 16)%N ->
  base64_char (sextet3 b c) = base64_char (sextet3 b' c') ->
  b = b' /\ (c / 64 = c' / 64)%N.
Proof.
  intros Hb Hb' Hc Hc' Hhi H3.
  apply base64_char_inj in H3; [|apply (sextet_bounds b c); assumption
                                |apply (sextet_bounds b' c'); assumption].
  unfold sextet3 in *. split; div_lia.
Qed.

Lemma last_inj (c c' : N) :
  (c < 256)%N -> (c' < 256)%N ->
  (c / 64 = c' / 64)%N ->
  base64_char (sextet4 c) = base64_char (sextet4 c') ->
  c = c'.
Proof.
  intros Hc Hc' Hhi H4.
  apply base64_char_inj in H4; [|apply (sextet_bounds c c); assumption
                                |apply (sextet_bounds c' c'); assumption].
  unfold sextet4 in *. div_lia.
Qed.

Lemma string_cons_inj (a b : ascii) (s t : string) :
  String a s = String b t -> a = b /\ s = t.
Proof. intros H. injection H as -> ->. auto. Qed.

Local Ltac pad_clash :=
  match goal with
  | H : base64_char ?s = "="%char |- _ =>
      exfalso; revert H; apply base64_char_not_pad
  | H : "="%char = base64_char ?s |- _ =>
      exfalso; symmetry in H; revert H; apply base64_char_not_pad
  end;
  match goal with
  | |- (sextet1 ?a < 64)%N => apply (sextet_bounds a a)
  | |- (sextet2 ?a ?b < 64)%N => apply (sextet_bounds a b)
  | |- (sextet3 ?a ?b < 64)%N => apply (sextet_bounds a b)
  | |- (sextet4 ?a < 64)%N => apply (sextet_bounds a a)
  end;
  first [apply N_ascii_bounded | reflexivity].

Lemma base64_inj_upto (n : nat) (x y : string) :
  (String.length x <= n)%nat -> base64 x = base64 y -> x = y.
Proof.
  revert x y. induction n as [|n IH]; intros x y Hlen Heq.
  - destruct x; [|cbn in Hlen; lia].
    destruct y as [|a [|b [|c rest]]]; [reflexivity|discriminate Heq..].
  - destruct x as [|a [|b [|c rest]]]; destruct y as [|a' [|b' [|c' rest']]];
      cbn [base64] in Heq; try reflexivity; try discriminate Heq;
      apply string_cons_inj in Heq as [H1 Heq]; apply string_cons_inj in Heq as [H2 Heq];
      apply string_cons_inj in Heq as [H3 Heq]; apply string_cons_inj in Heq as [H4 Hrest];
      try pad_clash.
    + destruct (head_inj _ _ 0 0 (N_ascii_bounded a) (N_ascii_bounded a')
                  eq_refl eq_refl H1 H2) as [Ha _].
      apply N_of_ascii_inj in Ha as ->. reflexivity.
    + destruct (head_inj _ _ _ _ (N_ascii_bounded a) (N_ascii_bounded a')
                  (N_ascii_bounded b) (N_ascii_bounded b') H1 H2) as [Ha Hb].
      destruct (tail_inj _ _ 0 0 (N_ascii_bounded b) (N_ascii_bounded b')
                  eq_refl eq_refl Hb H3) as [Hb' _].
      apply N_of_ascii_inj in Ha as ->. apply N_of_ascii_inj in Hb' as ->. reflexivity.
    + destruct (head_inj _ _ _ _ (N_ascii_bounded a) (N_ascii_bounded a')
                  (N_ascii_bounded b) (N_ascii_bounded b') H1 H2) as [Ha Hb].
      destruct (tail_inj _ _ _ _ (N_ascii_bounded b) (N_ascii_bounded b')
                  (N_ascii_bounded c) (N_ascii_bounded c') Hb H3) as [Hb' Hc].
      pose proof (last_inj _ _ (N_ascii_bounded c) (N_ascii_bounded c') Hc H4) as Hc'.
      apply N_of_ascii_inj in Ha as ->. apply N_of_ascii_inj in Hb' as ->.
      apply N_of_ascii_inj in Hc' as ->.
      f_equal. f_equal. f_equal. apply IH; [cbn in Hlen; lia | exact Hrest].
Qed.

Lemma base64_inj (x y : string) : base64 x = base64 y -> x = y.
Proof. apply (base64_inj_upto (String.length x)). lia. Qed.

(** Two texts get the same truncated encoding exactly when their first 24
    bytes agree. *)
Lemma slice0_32_base64_eq (x y : string) :
  slice0 32 (base64 x) = slice0 32 (base64 y) <-> slice0 24 x = slice0 24 y.
Proof.
  rewrite !slice0_32_base64. split; [apply base64_inj | intros ->; reflexivity].
Qed.

(** C4, as the code has it: the key is a function of the text (equal texts
    give equal keys), keys of different routes never coincide, and within a
    route two texts get the same key exactly when their first 24 bytes agree:
    the key keeps 32 characters of the base64 encoding, and no hash is
    taken. *)
Theorem cacheKey_collisions (a b : string) :
  (a = b -> geocode_cacheKey a = geocode_cacheKey b) /\
  (geocode_cacheKey a = geocode_cacheKey b <-> slice0 24 a = slice0 24 b) /\
  (direct_geocode_cacheKey a = direct_geocode_cacheKey b <-> slice0 24 a = slice0 24 b) /\
  (image_verification_cacheKey a = image_verification_cacheKey b
     <-> slice0 24 a = slice0 24 b) /\
  geocode_cacheKey a <> image_verification_cacheKey b /\
  geocode_cacheKey a <> direct_geocode_cacheKey b /\
  direct_geocode_cacheKey a <> image_verification_cacheKey b.
Proof.
  unfold geocode_cacheKey, direct_geocode_cacheKey, image_verification_cacheKey.
  split; [intros ->; reflexivity|].
  repeat split; try (rewrite <- slice0_32_base64_eq);
    try (cbv [String.append]; congruence);
    try (intros ->; reflexivity).
Qed.

End KeyFacts.

(** C4, as stated, fails: two different texts with the same first 24 bytes
    get the same key. *)
Lemma cacheKey_prefix_collision :
  ~ (forall a b : string, a <> b -> geocode_cacheKey a <> geocode_cacheKey b).
Proof.
  intros H.
  apply (H "Lower Manhattan, New York City" "Lower Manhattan, New York Harbor").
  - discriminate.
  - reflexivity.
Qed.

Lemma cacheKey_collisions_witness :
  slice0 24 "Lower Manhattan, New York City" = slice0 24 "Lower Manhattan, New York Harbor" /\
  direct_geocode_cacheKey "Lower Manhattan, New York City"
    = direct_geocode_cacheKey "Lower Manhattan, New York Harbor".
Proof.
  split; [reflexivity|].
  apply (cacheKey_collisions "Lower Manhattan, New York City"
           "Lower Manhattan, New York Harbor").
  reflexivity.
Defined.

(** ** The geocoding routes *)

Section RouteFacts.

Variable P : Platform.
Variable O : Outside.





End RouteFacts.



(** ** Image verification *)

Section VerificationFacts.

Variable P : Platform.
Variable O : Outside.

Lemma parseGeminiVerificationResponse_cases (geminiResponse : string) (w : World) :
  exists v w', parseGeminiVerificationResponse P O geminiResponse w = (Normal v, w') /\
    reports w' = reports w /\ cache w' = cache w /\ now w' = now w /\
    ((json_match geminiResponse = None /\ v = no_json_verification) \/
     (exists m, json_match geminiResponse = Some m /\ JSON_parse P m = Some v) \/
     (exists m, json_match geminiResponse = Some m /\ JSON_parse P m = None /\
                v = generateFallbackVerification O)).
Proof.
  unfold parseGeminiVerificationResponse, try_catch.
  destruct (json_match geminiResponse) as [m|]; cbn.
  - destruct (JSON_parse P m) as [v|] eqn:Hparse; cbn.
    + exists v, w. repeat split; eauto.
    + eexists _, _. repeat split; eauto 10.
  - exists no_json_verification, w. repeat split; auto.
Qed.

Lemma callGeminiAPI_frame (prompt : GeminiPrompt) (w : World) :
  exists r w', callGeminiAPI O prompt w = (r, w') /\
    reports w' = reports w /\ cache w' = cache w /\ now w' = now w.
Proof.
  unfold callGeminiAPI, try_catch, bind.
  destruct (unset (GEMINI_API_KEY O)); [eexists _, _; repeat split; reflexivity|].
  destruct prompt as [t|url]; cbn;
    [|destruct (negb (String.eqb url "")); cbn];
    (destruct (gemini O _) as [[text|]|e]; cbn;
     [destruct (negb (String.eqb text "")); cbn | |]);
    eexists _, _; repeat split; reflexivity.
Qed.

Lemma verifyImage_cases (image_url : string) (w : World) :
  exists v w', verifyImage P O image_url w = (Normal v, w') /\
    reports w' = reports w /\ cache w' = cache w /\ now w' = now w /\
    (v = generateFallbackVerification O \/ v = no_json_verification \/
     exists m, JSON_parse P m = Some v).
Proof.
  unfold verifyImage, try_catch, bind.
  destruct (callGeminiAPI_frame (ImageVerification image_url) w)
    as (r & w1 & -> & Hr & Hc & Hn).
  destruct r as [text|e].
  - destruct (parseGeminiVerificationResponse_cases text w1)
      as (v & w2 & -> & Hr2 & Hc2 & Hn2 & Hcases).
    exists v, w2. split; [reflexivity|].
    rewrite Hr2, Hc2, Hn2. repeat split; try assumption.
    destruct Hcases as [[_ ->]|[(m & _ & Hm)|(m & _ & _ & ->)]]; eauto.
  - eexists _, _. split; [reflexivity|]. cbn. auto.
Qed.


Lemma setCachedData_frame (key : string) (v : JsValue) (ttl : option Z) (w : World) :
  exists w', setCachedData O key v ttl w = (Normal tt, w') /\
             reports w' = reports w /\ now w' = now w.
Proof.
  unfold setCachedData, try_catch, bind, cache_upsert.
  destruct (db O (CacheUpsert key)); cbn; [destruct (cache w !! key)| |]; cbn;
    eexists; repeat split; reflexivity.
Qed.


Lemma getCachedData_frame (key : string) (w : World) :
  exists v w', getCachedData O key w = (Normal v, w') /\
               reports w' = reports w /\ now w' = now w.
Proof.
  unfold getCachedData, try_catch, bind, cache_select, cache_delete.
  destruct (db O (CacheSelect key)) as [|e|e]; cbn.
  - destruct (cache w !! key) as [row|]; cbn; [|eauto].
    destruct (Z.ltb (expires_at row) (now w)); [|eauto].
    destruct (db O (CacheDelete key)); cbn; eauto.
  - destruct (is_PGRST116 e); cbn; eauto.
  - eauto.
Qed.

(** The value [verifyImage] returns, by what Gemini did. *)
Lemma verifyImage_value (image_url : string) (w : World) :
  fst (verifyImage P O image_url w) =
    Normal
      (if unset (GEMINI_API_KEY O) then generateFallbackVerification O
       else
         match gemini O (ImageVerification image_url) with
         | Resolved (Some text) =>
             if negb (String.eqb text "") then
               match json_match text with
               | Some m =>
                   match JSON_parse P m with
                   | Some v => v
                   | None => generateFallbackVerification O
                   end
               | None => no_json_verification
               end
             else generateFallbackVerification O
         | _ => generateFallbackVerification O
         end).
Proof.
  unfold verifyImage, try_catch, bind, callGeminiAPI, parseGeminiVerificationResponse,
    try_catch, bind.
  destruct (unset (GEMINI_API_KEY O)); [reflexivity|].
  destruct (negb (String.eqb image_url "")); cbn;
    (destruct (gemini O (ImageVerification image_url)) as [[text|]|e]; cbn;
     [destruct (negb (String.eqb text "")); cbn;
      [destruct (json_match text) as [m|]; cbn; [destruct (JSON_parse P m); cbn|]|]| |]);
    reflexivity.
Qed.

(** The route answers every request that names an image with status 200. *)
Lemma post_verify_image_answers
  (disasterId image_url : string) (report_id : option string) (w : World) :
  present (Some image_url) = true ->
  exists (body : JsValue) (w' : World),
    post_verify_image P O disasterId (Some image_url) report_id w
      = (Normal (json 200 body), w').
Proof.
  intros Hurl.
  unfold post_verify_image, try_catch, bind, lift. rewrite Hurl. cbn [negb the_string].
  destruct (getCachedData_frame (image_verification_cacheKey image_url) w)
    as (c & w1 & -> & _).
  destruct (truthy c); [eexists _, _; reflexivity|].
  destruct (verifyImage_cases image_url w1) as (vr & w2 & -> & _).
  cbn [gets].
  destruct (present report_id);
    [destruct (prop vr "authenticity_score") as [score|e];
     [unfold reports_update_status;
      destruct (db O (ReportsUpdate (the_string report_id)))|]|];
    cbn [ret throw modify logger];
    match goal with |- context [setCachedData O ?k ?v ?t ?x] =>
      destruct (setCachedData_frame k v t x) as (w3 & -> & _ & _) end;
    eexists _, _; reflexivity.
Qed.

(** The heuristic score lies between 60 and 99. *)
Lemma fallback_score_range :
  (0 <= Math_random O)%Q -> (Math_random O < 1)%Q -> 60 <= fallback_score O <= 99.
Proof.
  intros H0 H1. unfold fallback_score.
  assert (Hlo : 0 <= Qfloor (Math_random O * 40)).
  { change 0 with (Qfloor 0). apply Qfloor_resp_le.
    apply Qmult_le_0_compat; [exact H0 | discriminate]. }
  assert (Hhi : Qfloor (Math_random O * 40) < 40).
  { rewrite Zlt_Qlt. apply Qle_lt_trans with (Math_random O * 40)%Q; [apply Qfloor_le|].
    change (inject_Z 40) with (1 * 40)%Q. apply Qmult_lt_compat_r; [reflexivity | exact H1]. }
  lia.
Qed.

(** C6, as the code has it: [verifyImage] never throws. When Gemini is not
    configured, when the call fails (the request fails, or its reply holds
    no candidate text, or an empty one), or when the reply holds a JSON text
    that does not parse, the result is the heuristic one, with the fields
    authenticity_score, confidence_level, analysis_notes, disaster_type, flags
    and method; when the reply holds no JSON object the result has the first
    five of these and no method; when the reply holds a JSON text that parses,
    the parsed value is returned as it is, whatever its fields. The route
    built on it answers every request whose [image_url] is a non-empty string
    (and whose [report_id] is absent or a string) with status 200. *)
Theorem verifyImage_always_returns (image_url : string) (w : World) :
  exists (v : JsValue) (w' : World),
    verifyImage P O image_url w = (Normal v, w') /\
    (unset (GEMINI_API_KEY O) = true -> v = generateFallbackVerification O) /\
    (forall e, gemini O (ImageVerification image_url) = Failed e ->
               v = generateFallbackVerification O) /\
    (gemini O (ImageVerification image_url) = Resolved None ->
     v = generateFallbackVerification O) /\
    (gemini O (ImageVerification image_url) = Resolved (Some "") ->
     v = generateFallbackVerification O) /\
    (forall text, unset (GEMINI_API_KEY O) = false ->
       gemini O (ImageVerification image_url) = Resolved (Some text) -> text <> "" ->
       match json_match text with
       | None => v = no_json_verification
       | Some m =>
           match JSON_parse P m with
           | None => v = generateFallbackVerification O
           | Some parsed => v = parsed
           end
       end) /\
    field_names (generateFallbackVerification O) =
      ["authenticity_score"; "confidence_level"; "analysis_notes"; "disaster_type";
       "flags"; "method"] /\
    field_names no_json_verification =
      ["authenticity_score"; "confidence_level"; "analysis_notes"; "disaster_type"; "flags"] /\
    (forall (disasterId : string) (report_id : option string) (w0 : World),
        present (Some image_url) = true ->
        exists (body : JsValue) (w1 : World),
          post_verify_image P O disasterId (Some image_url) report_id w0
            = (Normal (json 200 body), w1)).
Proof.
  destruct (verifyImage_cases image_url w) as (v & w' & Hrun & _).
  pose proof (verifyImage_value image_url w) as Hval. rewrite Hrun in Hval. cbn in Hval.
  injection Hval as Hval.
  exists v, w'. split; [exact Hrun|].
  split; [intros Hk; rewrite Hk in Hval; exact Hval|].
  split.
  { intros e He. rewrite He in Hval. destruct (unset (GEMINI_API_KEY O)); exact Hval. }
  split.
  { intros Hnone. rewrite Hnone in Hval. destruct (unset (GEMINI_API_KEY O)); exact Hval. }
  split.
  { intros Hempty. rewrite Hempty in Hval. cbn in Hval.
    destruct (unset (GEMINI_API_KEY O)); exact Hval. }
  split; [|split; [reflexivity|split; [reflexivity|]]].
  2: { intros d rid w0. apply post_verify_image_answers. }
  intros text Hk Hg Hne. rewrite Hk, Hg in Hval.
  apply String.eqb_neq in Hne. rewrite Hne in Hval. cbn in Hval.
  destruct (json_match text) as [m|]; [destruct (JSON_parse P m)|]; exact Hval.
Qed.


End VerificationFacts.

(** C6, as stated, fails on the shape: the heuristic result has six fields,
    with disaster_type and method, the result for a reply without JSON has
    five, without method; the two are not the same set of fields, and the
    first is not the five-field set of the claim. *)
Lemma verification_shapes_differ :
  field_names (verified (verifyImage plain_platform all_down
                           "https://example.com/flood.jpg" (empty_world 1000)))
    = ["authenticity_score"; "confidence_level"; "analysis_notes"; "disaster_type";
       "flags"; "method"] /\
  field_names (verified (verifyImage plain_platform gemini_prose
                           "https://example.com/flood.jpg" (empty_world 1000)))
    = ["authenticity_score"; "confidence_level"; "analysis_notes"; "disaster_type"; "flags"] /\
  ~ (forall (P : Platform) (O O' : Outside) (image_url : string) (w : World),
       Permutation (field_names (verified (verifyImage P O image_url w)))
                   (field_names (verified (verifyImage P O' image_url w)))).
Proof.
  split; [reflexivity|]. split; [reflexivity|].
  intros H.
  specialize (H plain_platform all_down gemini_prose "https://example.com/flood.jpg"
                (empty_world 1000)).
  apply Permutation_length in H. vm_compute in H. discriminate H.
Qed.

Lemma verifyImage_always_returns_witness :
  unset (GEMINI_API_KEY all_down) = true /\
  fst (verifyImage plain_platform all_down "https://example.com/flood.jpg" (empty_world 1000))
    = Normal (generateFallbackVerification all_down).
Proof.
  split; [reflexivity|].
  destruct (verifyImage_always_returns plain_platform all_down
              "https://example.com/flood.jpg" (empty_world 1000))
    as (v & w' & Hrun & Hunset & _).
  rewrite Hrun. cbn. f_equal. apply Hunset. reflexivity.
Defined.


(** * Further properties of the code *)

#[local] Set Warnings "-clear-no-such-hyp".

(** ** The sweep and the lookups *)

Section SweepFacts.

Variable O : Outside.

Lemma clearExpiredCache_frame (w : World) :
  exists w', clearExpiredCache O w = (Normal tt, w') /\
             now w' = now w /\ reports w' = reports w.
Proof.
  unfold clearExpiredCache, try_catch, bind, cache_delete_expired.
  destruct (db O CacheSweep); cbn; eexists; repeat split; reflexivity.
Qed.

Lemma clearExpiredCache_failing (w : World) :
  db O CacheSweep <> Healthy -> cache (snd (clearExpiredCache O w)) = cache w.
Proof.
  intros H. unfold clearExpiredCache, try_catch, bind, cache_delete_expired.
  destruct (db O CacheSweep); [congruence| |]; reflexivity.
Qed.

Lemma getCachedData_live (key : string) (row : CacheRow) (w : World) :
  db O (CacheSelect key) = Healthy ->
  cache w !! key = Some row ->
  now w <= expires_at row ->
  getCachedData O key w = (Normal (value row), w).
Proof.
  intros Hsel Hrow Hlive.
  unfold getCachedData, try_catch, bind, cache_select. rewrite Hsel. cbn.
  rewrite Hrow. cbn. destruct (Z.ltb_spec (expires_at row) (now w)); [lia | reflexivity].
Qed.

Lemma getCachedData_absent (key : string) (w : World) :
  db O (CacheSelect key) = Healthy ->
  cache w !! key = None ->
  getCachedData O key w = (Normal JsNull, w).
Proof.
  intros Hsel Hrow.
  unfold getCachedData, try_catch, bind, cache_select. rewrite Hsel. cbn.
  rewrite Hrow. reflexivity.
Qed.

(** X1: [clearExpiredCache] never throws and leaves the clock alone. When the
    store serves the sweep, it keeps exactly the rows whose [expires_at] is
    not before the clock, unchanged; when the store fails, the table is as it
    was. *)
Theorem clearExpiredCache_sweeps (w : World) :
  (exists w', clearExpiredCache O w = (Normal tt, w') /\ now w' = now w) /\
  (db O CacheSweep = Healthy ->
   forall key,
     cache (snd (clearExpiredCache O w)) !! key =
       match cache w !! key with
       | Some row => if Z.leb (now w) (expires_at row) then Some row else None
       | None => None
       end) /\
  (db O CacheSweep <> Healthy -> cache (snd (clearExpiredCache O w)) = cache w).
Proof.
  split.
  - destruct (clearExpiredCache_frame w) as (w' & Hrun & Hnow & _). eauto.
  - split.
    + intros Hs key. apply clearExpiredCache_healthy. exact Hs.
    + apply clearExpiredCache_failing.
Qed.

(** X2: the sweep is invisible to the lookups: on a store that serves the
    calls, [getCachedData] returns after a sweep what it would have returned
    without it, and finds nothing left to delete. *)
Theorem sweep_then_lookup (key : string) (w : World) :
  db O CacheSweep = Healthy ->
  db O (CacheSelect key) = Healthy ->
  db O (CacheDelete key) = Healthy ->
  fst (getCachedData O key (snd (clearExpiredCache O w))) = fst (getCachedData O key w) /\
  cache (snd (getCachedData O key (snd (clearExpiredCache O w))))
    = cache (snd (clearExpiredCache O w)).
Proof.
  intros Hs Hsel Hdel.
  destruct (clearExpiredCache_frame w) as (w' & Hrun & Hnow & _).
  pose proof (clearExpiredCache_healthy O key w Hs) as Hlook.
  rewrite Hrun in *. cbn [snd] in *.
  rewrite (getCachedData_healthy O key w Hsel Hdel).
  destruct (cache w !! key) as [row|] eqn:Hrow.
  - destruct (Z.leb_spec (now w) (expires_at row)) as [Hle|Hlt].
    + rewrite (getCachedData_live key row w' Hsel Hlook) by lia.
      destruct (Z.ltb_spec (expires_at row) (now w)); [lia|]. split; reflexivity.
    + rewrite (getCachedData_absent key w' Hsel Hlook).
      destruct (Z.ltb_spec (expires_at row) (now w)); [|lia]. split; reflexivity.
  - rewrite (getCachedData_absent key w' Hsel Hlook). split; reflexivity.
Qed.

End SweepFacts.

Lemma clearExpiredCache_sweeps_witness :
  db all_down CacheSweep = Healthy /\
  cache (snd (clearExpiredCache all_down (world_with 1001 "k" (mkRow (JsString "v") 1000))))
    !! "k" = None /\
  cache (snd (clearExpiredCache all_down (world_with 1000 "k" (mkRow (JsString "v") 1000))))
    !! "k" = Some (mkRow (JsString "v") 1000) /\
  db db_down CacheSweep <> Healthy /\
  cache (snd (clearExpiredCache db_down (world_with 1001 "k" (mkRow (JsString "v") 1000))))
    = {[ "k" := mkRow (JsString "v") 1000 ]}.
Proof.
  split; [reflexivity|].
  destruct (clearExpiredCache_sweeps all_down (world_with 1001 "k" (mkRow (JsString "v") 1000)))
    as (_ & H1 & _).
  destruct (clearExpiredCache_sweeps all_down (world_with 1000 "k" (mkRow (JsString "v") 1000)))
    as (_ & H2 & _).
  destruct (clearExpiredCache_sweeps db_down (world_with 1001 "k" (mkRow (JsString "v") 1000)))
    as (_ & _ & H3).
  split; [rewrite (H1 eq_refl "k"); unfold world_with; cbn;
          rewrite lookup_singleton_eq; reflexivity|].
  split; [rewrite (H2 eq_refl "k"); unfold world_with; cbn;
          rewrite lookup_singleton_eq; reflexivity|].
  split; [discriminate|]. apply H3. discriminate.
Defined.

Lemma sweep_then_lookup_witness :
  db all_down CacheSweep = Healthy /\
  db all_down (CacheSelect "k") = Healthy /\
  db all_down (CacheDelete "k") = Healthy /\
  fst (getCachedData all_down "k"
         (snd (clearExpiredCache all_down (world_with 1000 "k" (mkRow (JsString "v") 1000)))))
    = Normal (JsString "v").
Proof.
  split; [reflexivity|]. split; [reflexivity|]. split; [reflexivity|].
  destruct (sweep_then_lookup all_down "k" (world_with 1000 "k" (mkRow (JsString "v") 1000))
              eq_refl eq_refl eq_refl) as [H _].
  rewrite H. rewrite getCachedData_healthy by reflexivity.
  unfold world_with. cbn. rewrite lookup_singleton_eq. reflexivity.
Defined.

(** ** Answers served from the cache *)

Section CachedAnswers.

Variable P : Platform.

Lemma try_geocoders_success_truthy (gs : list Geocoder) (r : JsValue) :
  outcome (try_geocoders gs) = Normal r -> truthy r = true.
Proof.
  induction gs as [|g rest IH]; cbn; [discriminate|].
  destruct (g_call g tt) as [result|e]; [destruct (truthy result) eqn:Ht|]; cbn; auto.
  intros [= <-]. exact Ht.
Qed.



End CachedAnswers.


Section CachedVerification.

Variable P : Platform.



End CachedVerification.


(** ** The three geocoders *)

Section GeocoderFacts.

Variable P : Platform.
Variable O : Outside.

Lemma geocodeWithGoogleMaps_answer (loc r : JsValue) :
  geocodeWithGoogleMaps P O loc = Normal r ->
  field_names r = ["lat"; "lng"; "formatted_address"; "place_id"; "service"] /\
  field r "service" = JsString "google_maps" /\ truthy r = true /\
  unset (GOOGLE_MAPS_API_KEY O) = false.
Proof.
  unfold geocodeWithGoogleMaps.
  destruct (unset (GOOGLE_MAPS_API_KEY O)); [discriminate|].
  destruct (google_maps O (ToString P loc)) as [data|e]; [|discriminate].
  destruct (String.eqb (g_status data) "OK" && Nat.ltb 0 (length (g_results data)));
    [|discriminate].
  destruct (g_results data); [discriminate|]. intros [= <-]. repeat split.
Qed.

Lemma geocodeWithMapbox_answer (loc r : JsValue) :
  geocodeWithMapbox P O loc = Normal r ->
  field_names r = ["lat"; "lng"; "formatted_address"; "place_id"; "service"] /\
  field r "service" = JsString "mapbox" /\ truthy r = true /\
  unset (MAPBOX_ACCESS_TOKEN O) = false.
Proof.
  unfold geocodeWithMapbox.
  destruct (unset (MAPBOX_ACCESS_TOKEN O)); [discriminate|].
  destruct (mapbox O (ToString P loc)) as [data|e]; [|discriminate].
  destruct (m_features data) as [[|feature rest]|]; try discriminate.
  intros [= <-]. repeat split.
Qed.

Lemma geocodeWithOpenStreetMap_answer (loc r : JsValue) :
  geocodeWithOpenStreetMap P O loc = Normal r ->
  field_names r = ["lat"; "lng"; "formatted_address"; "place_id"; "service"] /\
  field r "service" = JsString "openstreetmap" /\ truthy r = true.
Proof.
  unfold geocodeWithOpenStreetMap.
  destruct (nominatim O (ToString P loc)) as [[[|result rest]|]|e]; try discriminate.
  intros [= <-]. repeat split.
Qed.

(** X5: a geocoding answer names its provider. When the chain of
    [geocodeLocation] succeeds, the result has exactly the fields lat, lng,
    formatted_address, place_id and service, and [service] is the tag of the
    geocoder that returned it; Mapbox answers only after Google Maps has
    thrown, OpenStreetMap only after both have, and the geocoders behind the
    one that answered are not called. *)
Theorem geocodeLocation_provenance (loc r : JsValue) :
  outcome (try_geocoders (geocoders P O loc)) = Normal r ->
  field_names r = ["lat"; "lng"; "formatted_address"; "place_id"; "service"] /\
  ((field r "service" = JsString "google_maps" /\
    geocodeWithGoogleMaps P O loc = Normal r /\
    invoked (try_geocoders (geocoders P O loc)) = ["geocodeWithGoogleMaps"]) \/
   (field r "service" = JsString "mapbox" /\
    geocodeWithMapbox P O loc = Normal r /\
    (exists e, geocodeWithGoogleMaps P O loc = Throw e) /\
    invoked (try_geocoders (geocoders P O loc))
      = ["geocodeWithGoogleMaps"; "geocodeWithMapbox"]) \/
   (field r "service" = JsString "openstreetmap" /\
    geocodeWithOpenStreetMap P O loc = Normal r /\
    (exists e, geocodeWithGoogleMaps P O loc = Throw e) /\
    (exists e, geocodeWithMapbox P O loc = Throw e) /\
    invoked (try_geocoders (geocoders P O loc))
      = ["geocodeWithGoogleMaps"; "geocodeWithMapbox"; "geocodeWithOpenStreetMap"])).
Proof.
  unfold geocoders. cbn [try_geocoders g_call g_name].
  destruct (geocodeWithGoogleMaps P O loc) as [g|eg] eqn:Hg.
  { destruct (geocodeWithGoogleMaps_answer loc g Hg) as (Hf & Hs & Ht & _).
    rewrite Ht. cbn. intros [= <-]. split; [exact Hf|]. left. auto. }
  destruct (geocodeWithMapbox P O loc) as [m|em] eqn:Hm.
  { destruct (geocodeWithMapbox_answer loc m Hm) as (Hf & Hs & Ht & _).
    rewrite Ht. cbn. intros [= <-]. split; [exact Hf|]. right. left. eauto 6. }
  destruct (geocodeWithOpenStreetMap P O loc) as [o|eo] eqn:Ho.
  { destruct (geocodeWithOpenStreetMap_answer loc o Ho) as (Hf & Hs & Ht).
    rewrite Ht. cbn. intros [= <-]. split; [exact Hf|]. right. right. eauto 8. }
  cbn. discriminate.
Qed.

(** X6: with neither the Google Maps key nor the Mapbox token configured, the
    two keyed geocoders throw at once and the answer of the chain is that of
    OpenStreetMap: the chain succeeds exactly when Nominatim answers with a
    non-empty list, and its first two warnings are the two configuration
    messages. *)
Theorem geocodeLocation_without_keys (loc : JsValue) :
  unset (GOOGLE_MAPS_API_KEY O) = true ->
  unset (MAPBOX_ACCESS_TOKEN O) = true ->
  outcome (try_geocoders (geocoders P O loc)) =
    match geocodeWithOpenStreetMap P O loc with
    | Normal r => Normal r
    | Throw _ => Throw (Error "All geocoding services failed")
    end /\
  ((exists r, outcome (try_geocoders (geocoders P O loc)) = Normal r) <->
   (exists place rest, nominatim O (ToString P loc) = Resolved (Some (place :: rest)))) /\
  take 2 (warnings (try_geocoders (geocoders P O loc)))
    = ["Google Maps API key not configured"; "Mapbox access token not configured"].
Proof.
  intros Hg Hm.
  assert (Hout : outcome (try_geocoders (geocoders P O loc)) =
                 match geocodeWithOpenStreetMap P O loc with
                 | Normal r => Normal r
                 | Throw _ => Throw (Error "All geocoding services failed")
                 end).
  { unfold geocoders. cbn [try_geocoders g_call g_name].
    unfold geocodeWithGoogleMaps, geocodeWithMapbox. rewrite Hg, Hm. cbn.
    destruct (geocodeWithOpenStreetMap P O loc) as [o|e] eqn:Ho; [|reflexivity].
    destruct (geocodeWithOpenStreetMap_answer loc o Ho) as (_ & _ & ->). reflexivity. }
  split; [exact Hout|]. split.
  - rewrite Hout. unfold geocodeWithOpenStreetMap.
    destruct (nominatim O (ToString P loc)) as [[[|place rest]|]|e]; split;
      try (intros [r Hr]; discriminate Hr);
      try (intros (place0 & rest0 & H0); discriminate H0); eauto.
  - unfold geocoders. cbn [try_geocoders g_call g_name].
    unfold geocodeWithGoogleMaps, geocodeWithMapbox. rewrite Hg, Hm. reflexivity.
Qed.

End GeocoderFacts.

Lemma geocodeLocation_provenance_witness :
  outcome (try_geocoders (geocoders plain_platform mapbox_up (JsString "Lower Manhattan, NYC")))
    = Normal (JsObject [("lat", JsNumber 40.72); ("lng", JsNumber (-74.01));
                        ("formatted_address", JsString "Lower Manhattan, New York");
                        ("place_id", JsString "place.1");
                        ("service", JsString "mapbox")]) /\
  exists e, geocodeWithGoogleMaps plain_platform mapbox_up (JsString "Lower Manhattan, NYC")
            = Throw e.
Proof.
  split; [reflexivity|].
  destruct (geocodeLocation_provenance plain_platform mapbox_up
              (JsString "Lower Manhattan, NYC") _ eq_refl)
    as (_ & [(Hs & _)|[(_ & _ & He & _)|(Hs & _)]]);
    [discriminate Hs | exact He | discriminate Hs].
Defined.

Lemma geocodeLocation_without_keys_witness :
  unset (GOOGLE_MAPS_API_KEY nothing_found) = true /\
  unset (MAPBOX_ACCESS_TOKEN nothing_found) = true /\
  outcome (try_geocoders (geocoders plain_platform nothing_found (JsString "Atlantis")))
    = Throw (Error "All geocoding services failed").
Proof.
  split; [reflexivity|]. split; [reflexivity|].
  destruct (geocodeLocation_without_keys plain_platform nothing_found (JsString "Atlantis")
              eq_refl eq_refl) as (H & _).
  rewrite H. reflexivity.
Defined.

(** ** The pattern-matching fallback of the location extraction *)

Section FallbackExtraction.

Lemma dedupe_elem (xs : list string) (x : string) : x ∈ dedupe xs <-> x ∈ xs.
Proof.
  induction xs as [|y rest IH]; cbn; [reflexivity|].
  rewrite !elem_of_cons, list_elem_of_filter, IH.
  split; [tauto|]. intros [->|Hin]; [auto|].
  destruct (String.eqb_spec y x) as [->|Hne]; [auto|].
  right. split; [exact I | exact Hin].
Qed.

Lemma dedupe_NoDup (xs : list string) : NoDup (dedupe xs).
Proof.
  induction xs as [|y rest IH]; cbn; constructor.
  - rewrite list_elem_of_filter. intros [Hne _].
    apply negb_prop_elim in Hne. apply Hne, Is_true_eq_left, String.eqb_refl.
  - apply NoDup_filter, IH.
Qed.

Lemma dedupe_head (xs : list string) : head (dedupe xs) = head xs.
Proof. destruct xs; reflexivity. Qed.

(** X7: the fallback extraction reports each location it matched once. Its
    [locations] are the matches of the patterns without duplicates, the first
    match first; [primary_location] is the first match, or null when nothing
    matched; [confidence] is 'medium' when something matched and 'low'
    otherwise. *)
Theorem extractLocationsFallback_result (P : Platform) (text : string) :
  exists l : list string,
    field (extractLocationsFallback P text) "locations" = JsArray (map JsString l) /\
    NoDup l /\
    (forall x, x ∈ l <-> x ∈ location_matches P text) /\
    head l = head (location_matches P text) /\
    field (extractLocationsFallback P text) "primary_location" =
      match head (location_matches P text) with
      | Some m => if String.eqb m "" then JsNull else JsString m
      | None => JsNull
      end /\
    field (extractLocationsFallback P text) "confidence" =
      JsString (match location_matches P text with [] => "low" | _ :: _ => "medium" end).
Proof.
  exists (dedupe (location_matches P text)).
  split; [reflexivity|]. split; [apply dedupe_NoDup|].
  split; [intros x; apply dedupe_elem|]. split; [apply dedupe_head|].
  unfold extractLocationsFallback. cbn.
  destruct (location_matches P text) as [|m rest]; cbn; [auto|].
  unfold js_or. cbn. destruct (String.eqb m ""); auto.
Qed.

End FallbackExtraction.

(** ** The JSON text cut out of a reply *)

Section JsonMatch.

Lemma append_cons (c : ascii) (s t : string) : String c s ++ t = String c (s ++ t).
Proof. reflexivity. Qed.

Lemma append_empty (t : string) : EmptyString ++ t = t.
Proof. reflexivity. Qed.

Lemma has_char_app (c : ascii) (a b : string) :
  has_char c (a ++ b) = has_char c a || has_char c b.
Proof.
  induction a as [|x a IH]; [reflexivity|].
  rewrite append_cons. cbn. rewrite IH. apply orb_assoc.
Qed.

Lemma from_first_brace_spec (s t : string) :
  from_first_brace s = Some t <->
  exists pre rest, s = pre ++ String "{" rest /\ t = String "{" rest /\ has_char "{" pre = false.
Proof.
  revert t. induction s as [|c s IH]; intros t; cbn.
  - split; [discriminate|]. intros (pre & rest & Hs & _). destruct pre; discriminate Hs.
  - destruct (Ascii.eqb_spec c "{") as [->|Hne].
    + split.
      * intros [= <-]. exists EmptyString, s. auto.
      * intros ([|c' pre] & rest & Hs & -> & Hpre).
        -- rewrite append_empty in Hs. congruence.
        -- rewrite append_cons in Hs. injection Hs as <- _. cbn in Hpre.
           discriminate Hpre.
    + rewrite IH. split.
      * intros (pre & rest & -> & -> & Hpre). exists (String c pre), rest.
        rewrite append_cons. cbn. destruct (Ascii.eqb_spec c "{"); [contradiction|]. auto.
      * intros ([|c' pre] & rest & Hs & -> & Hpre).
        -- rewrite append_empty in Hs. injection Hs as -> _. contradiction.
        -- rewrite append_cons in Hs. injection Hs as <- ->. cbn in Hpre.
           apply orb_false_elim in Hpre as [_ Hpre]. eauto.
Qed.

Lemma upto_last_brace_spec (s p : string) :
  upto_last_brace s = Some p <->
  exists body post, s = body ++ String "}" post /\ p = body ++ "}" /\ has_char "}" post = false.
Proof.
  revert p. induction s as [|c s IH]; intros p; cbn.
  - split; [discriminate|]. intros (body & post & Hs & _). destruct body; discriminate Hs.
  - destruct (upto_last_brace s) as [q|] eqn:Hq.
    + destruct (proj1 (IH q) eq_refl) as (body & post & -> & -> & Hpost). split.
      * intros [= <-]. exists (String c body), post. rewrite !append_cons. auto.
      * intros (body' & post' & Hs & -> & Hpost'). f_equal.
        destruct body' as [|c' body'].
        -- exfalso. rewrite append_empty in Hs. injection Hs as -> <-.
           assert (has_char "}" (body ++ String "}" post) = true) as Hin
             by (rewrite has_char_app; cbn; apply orb_true_r).
           congruence.
        -- rewrite append_cons in Hs. injection Hs as <- Hs. rewrite append_cons. f_equal.
           assert (Some (body ++ "}") = Some (body' ++ "}")) as H' by (apply IH; eauto).
           congruence.
    + assert (Hnone : has_char "}" s = false).
      { destruct (has_char "}" s) eqn:Hh; [|reflexivity]. exfalso.
        assert (exists body post, s = body ++ String "}" post /\ has_char "}" post = false)
          as (body & post & Hs & Hpost).
        { clear -Hh. induction s as [|b s IHs]; [discriminate|]. cbn in Hh.
          destruct (has_char "}" s) eqn:Hs.
          - destruct (IHs eq_refl) as (body & post & -> & Hpost).
            exists (String b body), post. auto.
          - rewrite orb_false_r in Hh. apply Ascii.eqb_eq in Hh as ->.
            exists EmptyString, s. auto. }
        assert (None = Some (body ++ "}")) as H' by (apply IH; eauto).
        discriminate H'. }
      destruct (Ascii.eqb_spec c "}") as [->|Hne].
      * split.
        -- intros [= <-]. exists EmptyString, s. auto.
        -- intros ([|c' body] & post & Hs & -> & Hpost).
           ++ reflexivity.
           ++ exfalso. rewrite append_cons in Hs. injection Hs as _ ->.
              assert (has_char "}" (body ++ String "}" post) = true) as Hin
             by (rewrite has_char_app; cbn; apply orb_true_r).
              congruence.
      * split; [discriminate|].
        intros ([|c' body] & post & Hs & _ & _).
        -- rewrite append_empty in Hs. injection Hs as -> _. contradiction.
        -- exfalso. rewrite append_cons in Hs. injection Hs as _ ->.
           assert (has_char "}" (body ++ String "}" post) = true) as Hin
             by (rewrite has_char_app; cbn; apply orb_true_r).
           congruence.
Qed.

(** X8: the text handed to [JSON.parse] runs from the first opening brace of
    the reply to its last closing brace. [json_match] finds [m] exactly when
    the reply is some text without an opening brace, then [m], which starts
    with an opening and ends with a closing brace, then some text without a
    closing brace; it finds nothing exactly when no closing brace follows the
    first opening one. *)
Theorem json_match_spec (reply m : string) :
  json_match reply = Some m <->
  exists pre body post,
    reply = pre ++ m ++ post /\
    m = String "{" (body ++ "}") /\
    has_char "{" pre = false /\
    has_char "}" post = false.
Proof.
  unfold json_match. split.
  - destruct (from_first_brace reply) as [t|] eqn:Ht; [|discriminate].
    apply from_first_brace_spec in Ht as (pre & rest & -> & -> & Hpre).
    intros Hm. apply upto_last_brace_spec in Hm as (body & post & Ht & -> & Hpost).
    destruct body as [|b body].
    + rewrite append_empty in Ht. discriminate Ht.
    + rewrite append_cons in Ht. injection Ht as <- ->.
      exists pre, body, post. rewrite append_cons.
      repeat split; try assumption.
      f_equal. rewrite append_cons. f_equal.
      clear. induction body as [|b body IH]; [reflexivity|].
      rewrite !append_cons, IH. reflexivity.
  - intros (pre & body & post & -> & -> & Hpre & Hpost).
    assert (Hfirst : from_first_brace (pre ++ String "{" (body ++ "}") ++ post)
                     = Some (String "{" ((body ++ "}") ++ post))).
    { apply from_first_brace_spec. exists pre, ((body ++ "}") ++ post). auto. }
    rewrite Hfirst. apply upto_last_brace_spec.
    exists (String "{" body), post. rewrite !append_cons. repeat split; [|exact Hpost].
    f_equal. clear. induction body as [|b body IH]; [reflexivity|].
    rewrite !append_cons, IH. reflexivity.
Qed.

End JsonMatch.

Lemma json_match_spec_witness :
  json_match "Sure. {'score': 80} Hope this helps" = Some "{'score': 80}".
Proof.
  apply json_match_spec. exists "Sure. ", "'score': 80", " Hope this helps".
  repeat split; reflexivity.
Defined.

(** ** The cache keys of all routes *)

Section AllKeys.

(** X9: the cache keys of different routes never coincide: whatever the texts
    and ids, a key of one of the six cached routes (extract-and-geocode,
    direct geocoding, image verification, official updates, social media,
    resources) is never a key of another. *)
Theorem cache_keys_are_namespaced (a b : CachedRequest) :
  cacheKey_of a = cacheKey_of b -> same_route a b = true.
Proof.
  destruct a, b; cbn [same_route]; try reflexivity;
    unfold cacheKey_of, geocode_cacheKey, direct_geocode_cacheKey,
      image_verification_cacheKey, official_updates_cacheKey, social_media_cacheKey,
      resources_cacheKey;
    cbv [String.append]; intros H; discriminate H.
Qed.

Lemma underscore_split (a a' s s' : string) :
  has_char "_" a = false ->
  has_char "_" a' = false ->
  a ++ String "_" s = a' ++ String "_" s' ->
  a = a' /\ s = s'.
Proof.
  revert a'. induction a as [|c a IH]; intros [|c' a'] Ha Ha' Heq.
  - rewrite !append_empty in Heq. injection Heq as ->. auto.
  - rewrite append_empty, append_cons in Heq. injection Heq as <- _.
    cbn in Ha'. discriminate Ha'.
  - rewrite append_empty, append_cons in Heq. injection Heq as -> _.
    cbn in Ha. discriminate Ha.
  - rewrite !append_cons in Heq. injection Heq as <- Heq.
    cbn in Ha, Ha'. apply orb_false_elim in Ha as [_ Ha].
    apply orb_false_elim in Ha' as [_ Ha'].
    destruct (IH a' Ha Ha' Heq) as [-> ->]. auto.
Qed.

(** X10: the key of the resources route separates its parts with underscores
    and so tells two requests apart only as far as the parts hold none: when
    neither the disaster id nor the latitude and longitude texts of two
    requests contain an underscore, equal keys mean the same disaster id, the
    same latitude and longitude texts (an absent one reads 'undefined') and
    the same radius text (an absent one reads '10000'). *)
Theorem resources_cacheKey_inj
  (d d' : string) (lat lat' lon lon' radius radius' : option string) :
  has_char "_" d = false -> has_char "_" d' = false ->
  has_char "_" (rendered lat) = false -> has_char "_" (rendered lat') = false ->
  has_char "_" (rendered lon) = false -> has_char "_" (rendered lon') = false ->
  resources_cacheKey d lat lon radius = resources_cacheKey d' lat' lon' radius' ->
  d = d' /\ rendered lat = rendered lat' /\ rendered lon = rendered lon' /\
  radius_or_default radius = radius_or_default radius'.
Proof.
  intros Hd Hd' Hlat Hlat' Hlon Hlon' Heq.
  unfold resources_cacheKey in Heq.
  assert (Hrest : d ++ String "_" (rendered lat ++ String "_" (rendered lon ++
                    String "_" (radius_or_default radius)))
                = d' ++ String "_" (rendered lat' ++ String "_" (rendered lon' ++
                    String "_" (radius_or_default radius')))).
  { revert Heq. cbv [String.append]. intros [= H]. exact H. }
  apply underscore_split in Hrest as [-> Hrest]; try assumption.
  apply underscore_split in Hrest as [-> Hrest]; try assumption.
  apply underscore_split in Hrest as [-> Hrest]; try assumption.
  auto.
Qed.

End AllKeys.

Lemma cache_keys_are_namespaced_witness :
  cacheKey_of (SocialMedia "42") = cacheKey_of (SocialMedia "42") /\
  cacheKey_of (SocialMedia "updates_7") <> cacheKey_of (OfficialUpdates "7").
Proof.
  split; [reflexivity|].
  intros H. apply cache_keys_are_namespaced in H. discriminate H.
Defined.

Lemma resources_cacheKey_inj_witness :
  resources_cacheKey "d1" (Some "40.7") (Some "-74.0") None
    = resources_cacheKey "d1" (Some "40.7") (Some "-74.0") (Some "10000") /\
  radius_or_default None = radius_or_default (Some "10000").
Proof.
  split; [reflexivity|].
  apply (resources_cacheKey_inj "d1" "d1" (Some "40.7") (Some "40.7")
           (Some "-74.0") (Some "-74.0") None (Some "10000")); reflexivity.
Defined.

Example resources_cacheKey_underscore_collision :
  resources_cacheKey "d1" (Some "1_2") (Some "3") None
    = resources_cacheKey "d1" (Some "1") (Some "2_3") None.
Proof. reflexivity. Qed.

(** ** The heuristic verification *)

Section HeuristicFacts.

Variable P : Platform.
Variable O : Outside.

Lemma js_ge_integer (s c : Z) : js_ge P (JsNumber (inject_Z s)) (inject_Z c) = Z.leb c s.
Proof.
  unfold js_ge. cbn. destruct (Z.leb_spec c s) as [Hle|Hlt].
  - apply Qle_bool_iff. rewrite <- Zle_Qle. exact Hle.
  - destruct (Qle_bool (inject_Z c) (inject_Z s)) eqn:Hq; [|reflexivity].
    apply Qle_bool_iff in Hq. rewrite <- Zle_Qle in Hq. lia.
Qed.

(** X11: the heuristic verification stays in its band. For a value of
    [Math.random()] in [0, 1) its score is a whole number from 60 to 99; its
    confidence is 'high' from 80 on and 'medium' below, never 'low'; it asks
    for a manual review exactly when the score is below 70; and the status a
    report gets from it is 'verified' from 70 on and 'questionable' below,
    never 'rejected'. *)
Theorem generateFallbackVerification_band :
  (0 <= Math_random O)%Q -> (Math_random O < 1)%Q ->
  exists s : Z,
    60 <= s <= 99 /\
    field (generateFallbackVerification O) "authenticity_score" = JsNumber (inject_Z s) /\
    field (generateFallbackVerification O) "confidence_level"
      = JsString (if Z.leb 80 s then "high" else "medium") /\
    field (generateFallbackVerification O) "flags"
      = JsArray (if Z.ltb s 70 then [JsString "requires_manual_review"] else []) /\
    verification_status_of P (field (generateFallbackVerification O) "authenticity_score")
      = (if Z.leb 70 s then "verified" else "questionable").
Proof.
  intros H0 H1. pose proof (fallback_score_range O H0 H1) as Hr.
  exists (fallback_score O). split; [exact Hr|].
  unfold generateFallbackVerification. cbn [field assoc_get String.eqb Ascii.eqb Bool.eqb].
  split; [reflexivity|]. split.
  - destruct (Z.leb_spec 80 (fallback_score O)); [reflexivity|].
    destruct (Z.leb_spec 60 (fallback_score O)); [reflexivity|lia].
  - split; [reflexivity|].
    unfold verification_status_of.
    change 70%Q with (inject_Z 70). change 40%Q with (inject_Z 40).
    rewrite !js_ge_integer.
    destruct (Z.leb_spec 70 (fallback_score O)); [reflexivity|].
    destruct (Z.leb_spec 40 (fallback_score O)); [reflexivity|lia].
Qed.

End HeuristicFacts.

Lemma generateFallbackVerification_band_witness :
  (0 <= Math_random all_down)%Q /\ (Math_random all_down < 1)%Q /\
  verification_status_of plain_platform
    (field (generateFallbackVerification all_down) "authenticity_score") = "questionable".
Proof.
  assert (H0 : (0 <= Math_random all_down)%Q) by (unfold Qle; cbn; lia).
  assert (H1 : (Math_random all_down < 1)%Q) by reflexivity.
  split; [exact H0|]. split; [exact H1|].
  destruct (generateFallbackVerification_band plain_platform all_down H0 H1)
    as (s & _ & Hs & _ & _ & Hst).
  rewrite Hst. vm_compute in Hs. injection Hs as <-. reflexivity.
Defined.

(** ** Rooms over the life of a connection *)

Section RoomFacts.

Lemma membership_stays (sid room : string) (later : list SocketEvent) (io : Sockets) :
  (exists rooms, io !! sid = Some rooms /\ room ∈ rooms) ->
  Forall (fun e => e <> Connection sid /\ e <> Disconnect sid) later ->
  exists rooms, fold_left on_event later io !! sid = Some rooms /\ room ∈ rooms.
Proof.
  revert io. induction later as [|e later IH]; intros io Hin Hall; [exact Hin|].
  apply Forall_cons in Hall as [[Hc Hd] Hall]. cbn [fold_left].
  apply IH; [|exact Hall]. destruct Hin as (rooms & Hl & Hroom).
  destruct e as [s|s d|s]; cbn.
  - destruct (decide (s = sid)) as [->|Hne]; [congruence|].
    rewrite lookup_insert_ne by exact Hne. eauto.
  - destruct (io !! s) as [rs|] eqn:Hs; [|eauto].
    destruct (decide (s = sid)) as [->|Hne].
    + rewrite lookup_insert_eq. rewrite Hl in Hs. injection Hs as <-.
      eexists. split; [reflexivity|]. set_solver.
    + rewrite lookup_insert_ne by exact Hne. eauto.
  - destruct (decide (s = sid)) as [->|Hne]; [congruence|].
    rewrite lookup_delete_ne by exact Hne. eauto.
Qed.

Lemma absence_stays (sid : string) (later : list SocketEvent) (io : Sockets) :
  io !! sid = None ->
  Forall (fun e => e <> Connection sid) later ->
  fold_left on_event later io !! sid = None.
Proof.
  revert io. induction later as [|e later IH]; intros io Hin Hall; [exact Hin|].
  apply Forall_cons in Hall as [Hc Hall]. cbn [fold_left].
  apply IH; [|exact Hall].
  destruct e as [s|s d|s]; cbn.
  - destruct (decide (s = sid)) as [->|Hne]; [congruence|].
    rewrite lookup_insert_ne by exact Hne. exact Hin.
  - destruct (io !! s) as [rs|] eqn:Hs; [|exact Hin].
    destruct (decide (s = sid)) as [->|Hne]; [congruence|].
    rewrite lookup_insert_ne by exact Hne. exact Hin.
  - destruct (decide (s = sid)) as [->|Hne].
    + apply lookup_delete_eq.
    + rewrite lookup_delete_ne by exact Hne. exact Hin.
Qed.

Lemma after_events_app (before later : list SocketEvent) :
  after_events (before ++ later) = fold_left on_event later (after_events before).
Proof. unfold after_events. apply fold_left_app. Qed.

(** X12: a socket that joined a disaster stays subscribed until it
    disconnects; nothing else takes it out of the room. When a connected
    socket sends [join_disaster] for a disaster and neither disconnects nor
    reconnects afterwards, it receives every event emitted to the room of
    that disaster, whatever other sockets do and whatever else it joins; and
    joining the same disaster again changes nothing. *)
Theorem joined_socket_receives
  (before later : list SocketEvent) (sid d : string) (e : Emission) :
  is_Some (after_events before !! sid) ->
  Forall (fun ev => ev <> Connection sid /\ ev <> Disconnect sid) later ->
  target e = ToRoom (disaster_room d) ->
  sid ∈ recipients (after_events (before ++ JoinDisaster sid d :: later)) e /\
  on_event (on_event (after_events before) (JoinDisaster sid d)) (JoinDisaster sid d)
    = on_event (after_events before) (JoinDisaster sid d).
Proof.
  intros [rooms Hrooms] Hlater Ht. split.
  - apply (recipients_of_room _ _ _ _ Ht).
    rewrite after_events_app. cbn [fold_left].
    apply membership_stays; [|exact Hlater].
    cbn. rewrite Hrooms, lookup_insert_eq. eexists. split; [reflexivity|].
    apply elem_of_union_l, elem_of_singleton. reflexivity.
  - cbn. rewrite Hrooms, lookup_insert_eq, insert_insert_eq. f_equal.
    apply leibniz_equiv. rewrite (assoc_L (∪)), (idemp_L (∪)). reflexivity.
Qed.

(** X13: a disconnected socket receives nothing, and a reconnection starts in
    no room of a disaster. After [disconnect], until a new [connection] with
    the same id, the socket is a recipient of no emission, broadcast or not;
    and right after a [connection] it receives no event emitted to the room
    of a disaster, whatever it had joined before. *)
Theorem disconnected_socket_receives_nothing
  (before later : list SocketEvent) (sid : string) (e : Emission) :
  Forall (fun ev => ev <> Connection sid) later ->
  (sid ∉ recipients (after_events (before ++ Disconnect sid :: later)) e) /\
  (forall d, target e = ToRoom (disaster_room d) ->
             sid ∉ recipients (after_events (before ++ [Connection sid])) e).
Proof.
  intros Hlater. split.
  - assert (Hgone : after_events (before ++ Disconnect sid :: later) !! sid = None).
    { rewrite after_events_app. cbn [fold_left].
      apply absence_stays; [|exact Hlater]. cbn. apply lookup_delete_eq. }
    unfold recipients. destruct (target e) as [|room].
    + rewrite not_elem_of_dom. exact Hgone.
    + rewrite not_elem_of_dom. apply map_lookup_filter_None. left. exact Hgone.
  - intros d Ht Hin.
    apply (recipients_of_room _ _ _ _ Ht) in Hin as (rooms & Hl & Hroom).
    rewrite after_events_app in Hl. cbn in Hl. rewrite lookup_insert_eq in Hl.
    injection Hl as <-. set_solver.
Qed.

End RoomFacts.

Lemma joined_socket_receives_witness :
  is_Some (after_events [Connection "s1"] !! "s1") /\
  "s1" ∈ recipients
           (after_events ([Connection "s1"] ++ JoinDisaster "s1" "A" ::
                          [Connection "s2"; JoinDisaster "s1" "B"; Disconnect "s2"]))
           (emit_social_media_updated "A" JsNull).
Proof.
  assert (H : is_Some (after_events [Connection "s1"] !! "s1")).
  { unfold after_events. cbn. rewrite lookup_insert_eq. eauto. }
  split; [exact H|].
  apply (joined_socket_receives [Connection "s1"]
           [Connection "s2"; JoinDisaster "s1" "B"; Disconnect "s2"] "s1" "A"
           (emit_social_media_updated "A" JsNull) H); [|reflexivity].
  repeat constructor; discriminate.
Defined.

Lemma disconnected_socket_receives_nothing_witness :
  "s1" ∉ recipients
           (after_events ([Connection "s1"; JoinDisaster "s1" "A"] ++ Disconnect "s1" ::
                          [Connection "s2"]))
           (emit_disaster_updated create JsNull).
Proof.
  apply (disconnected_socket_receives_nothing [Connection "s1"; JoinDisaster "s1" "A"]
           [Connection "s2"] "s1" (emit_disaster_updated create JsNull)).
  repeat constructor; discriminate.
Defined.

(** ** The logger *)

Section LoggerFacts.

(** X14: which lines reach the console. A level that is written carries every
    more severe level with it (debug, info, warn, error in this order);
    without LOG_LEVEL, or with an empty one, error, warn and info are written
    and debug is not; and with a LOG_LEVEL that is none of the four names
    nothing is written at all, errors included. *)
Theorem logger_levels (LOG_LEVEL : option string) :
  (reaches_console LOG_LEVEL debug = true -> reaches_console LOG_LEVEL info = true) /\
  (reaches_console LOG_LEVEL info = true -> reaches_console LOG_LEVEL warn = true) /\
  (reaches_console LOG_LEVEL warn = true -> reaches_console LOG_LEVEL error = true) /\
  (unset LOG_LEVEL = true ->
   reaches_console LOG_LEVEL error = true /\ reaches_console LOG_LEVEL warn = true /\
   reaches_console LOG_LEVEL info = true /\ reaches_console LOG_LEVEL debug = false) /\
  (unset LOG_LEVEL = false ->
   ~ In (the_string LOG_LEVEL) ["error"; "warn"; "info"; "debug"] ->
   forall l, reaches_console LOG_LEVEL l = false).
Proof.
  unfold reaches_console.
  split; [|split; [|split; [|split]]].
  - destruct (currentLogLevel LOG_LEVEL); cbn; [|discriminate].
    intros H. apply Z.leb_le in H. apply Z.leb_le. lia.
  - destruct (currentLogLevel LOG_LEVEL); cbn; [|discriminate].
    intros H. apply Z.leb_le in H. apply Z.leb_le. lia.
  - destruct (currentLogLevel LOG_LEVEL); cbn; [|discriminate].
    intros H. apply Z.leb_le in H. apply Z.leb_le. lia.
  - intros Hu. unfold currentLogLevel. rewrite Hu. cbn. auto.
  - intros Hu Hnot l. unfold currentLogLevel. rewrite Hu. unfold LOG_LEVELS at 1.
    destruct (String.eqb_spec (the_string LOG_LEVEL) "error") as [He|_];
      [exfalso; apply Hnot; rewrite He; cbn; auto|].
    destruct (String.eqb_spec (the_string LOG_LEVEL) "warn") as [He|_];
      [exfalso; apply Hnot; rewrite He; cbn; auto|].
    destruct (String.eqb_spec (the_string LOG_LEVEL) "info") as [He|_];
      [exfalso; apply Hnot; rewrite He; cbn; auto|].
    destruct (String.eqb_spec (the_string LOG_LEVEL) "debug") as [He|_];
      [exfalso; apply Hnot; rewrite He; cbn; auto 6|].
    reflexivity.
Qed.

Lemma fold_insert_lookup (meta : list (string * JsValue)) (base : gmap string JsValue)
  (k : string) :
  fold_left (fun entry kv => <[fst kv := snd kv]> entry) meta base !! k =
    match last_value k meta with
    | Some v => Some v
    | None => base !! k
    end.
Proof.
  revert base. induction meta as [|[k' v'] rest IH]; intros base; [reflexivity|].
  cbn [fold_left last_value fst snd]. rewrite IH.
  destruct (last_value k rest); [reflexivity|].
  destruct (String.eqb_spec k' k) as [->|Hne].
  - apply lookup_insert_eq.
  - apply lookup_insert_ne. exact Hne.
Qed.

(** X15: the fields of [meta] win over those of the log line. In the entry
    that is printed, every field of [meta] has the value [meta] gives it, so a
    [meta] with a field [message] (a database error object has one) replaces
    the message the caller passed, and likewise for [level] and [timestamp];
    the three keep their values only when [meta] does not name them. *)
Theorem logEntry_meta_wins
  (timestamp : string) (l : LogLevel) (message : string) (meta : list (string * JsValue))
  (k : string) :
  logEntry timestamp l message meta !! k =
    match last_value k meta with
    | Some v => Some v
    | None =>
        if String.eqb k "message" then Some (JsString message)
        else if String.eqb k "level" then Some (JsString (level_name l))
        else if String.eqb k "timestamp" then Some (JsString timestamp)
        else None
    end.
Proof.
  unfold logEntry. rewrite fold_insert_lookup.
  destruct (last_value k meta); [reflexivity|].
  destruct (String.eqb_spec k "message") as [->|Hm]; [apply lookup_insert_eq|].
  rewrite lookup_insert_ne by congruence.
  destruct (String.eqb_spec k "level") as [->|Hl]; [apply lookup_insert_eq|].
  rewrite lookup_insert_ne by congruence.
  destruct (String.eqb_spec k "timestamp") as [->|Ht]; [apply lookup_insert_eq|].
  rewrite lookup_insert_ne by congruence. apply lookup_empty.
Qed.

End LoggerFacts.

Lemma logger_levels_witness :
  unset (Some "verbose") = false /\
  ~ In (the_string (Some "verbose")) ["error"; "warn"; "info"; "debug"] /\
  reaches_console (Some "verbose") error = false /\
  reaches_console None info = true /\ reaches_console None debug = false.
Proof.
  assert (Hnot : ~ In (the_string (Some "verbose")) ["error"; "warn"; "info"; "debug"]).
  { cbn. intros [H|[H|[H|[H|[]]]]]; discriminate H. }
  split; [reflexivity|]. split; [exact Hnot|].
  destruct (logger_levels (Some "verbose")) as (_ & _ & _ & _ & Hsilent).
  destruct (logger_levels None) as (_ & _ & _ & Hdefault & _).
  split; [apply Hsilent; [reflexivity | exact Hnot]|].
  destruct (Hdefault eq_refl) as (_ & _ & Hi & Hd). auto.
Defined.

Example logEntry_database_error :
  logEntry "2024-01-01T00:00:00.000Z" error "Error getting cached data:"
    [("code", JsString "PGRST301"); ("message", JsString "JWT expired")] !! "message"
  = Some (JsString "JWT expired").
Proof. vm_compute. reflexivity. Qed.

(** ** The mock authentication *)

Section AuthFacts.

(** X16: [mockAuth] lets every request through. It never answers 401: a
    [user_id] query parameter that names a member of [MOCK_USERS] decides the
    identity, otherwise a Bearer token that does, and a request with neither
    is authenticated as netrunnerX, an admin who passes [requirePermission]
    for create, read, update and delete. *)
Theorem mockAuth_never_rejects (authorization user_id : option string) (w : World) :
  exists (user : Looked) (w' : World),
    mockAuth authorization user_id w = (Normal (Next user), w') /\
    found user = true /\
    cache w' = cache w /\ reports w' = reports w /\
    (present user_id && found (MOCK_USERS (the_string user_id)) = true ->
     user = MOCK_USERS (the_string user_id)) /\
    (present user_id && found (MOCK_USERS (the_string user_id)) = false ->
     present authorization && String.prefix "Bearer " (the_string authorization)
       && found (MOCK_USERS (substring_from 7 (the_string authorization))) = true ->
     user = MOCK_USERS (substring_from 7 (the_string authorization))) /\
    (present user_id && found (MOCK_USERS (the_string user_id)) = false ->
     present authorization && String.prefix "Bearer " (the_string authorization)
       && found (MOCK_USERS (substring_from 7 (the_string authorization))) = false ->
     user = OwnUser netrunnerX /\
     forall permission, In permission ["create"; "read"; "update"; "delete"] ->
                        requirePermission permission user = Normal (Next user)).
Proof.
  unfold mockAuth.
  destruct (present user_id && found (MOCK_USERS (the_string user_id))) eqn:Hq.
  - apply andb_prop in Hq as [_ Hfound]. rewrite Hfound. cbn [negb bind].
    eexists _, _. split; [reflexivity|]. split; [exact Hfound|].
    split; [reflexivity|]. split; [reflexivity|].
    split; [reflexivity|]. split; discriminate.
  - destruct (present authorization && String.prefix "Bearer " (the_string authorization))
      eqn:Hb; cbn [andb].
    + destruct (found (MOCK_USERS (substring_from 7 (the_string authorization)))) eqn:Ht.
      * rewrite Ht. cbn [negb bind].
        eexists _, _. split; [reflexivity|]. split; [exact Ht|].
        split; [reflexivity|]. split; [reflexivity|].
        split; [discriminate|]. split; [reflexivity | discriminate].
      * cbn [negb bind found MOCK_USERS String.eqb Ascii.eqb Bool.eqb].
        eexists _, _. split; [reflexivity|]. split; [reflexivity|].
        split; [reflexivity|]. split; [reflexivity|].
        split; [discriminate|]. split; [discriminate|].
        intros _ _. split; [reflexivity|].
        intros p [<-|[<-|[<-|[<-|[]]]]]; reflexivity.
    + cbn [negb bind found MOCK_USERS String.eqb Ascii.eqb Bool.eqb].
      eexists _, _. split; [reflexivity|]. split; [reflexivity|].
      split; [reflexivity|]. split; [reflexivity|].
      split; [discriminate|]. split; [discriminate|].
      intros _ _. split; [reflexivity|].
      intros p [<-|[<-|[<-|[<-|[]]]]]; reflexivity.
Qed.

End AuthFacts.

Lemma mockAuth_never_rejects_witness :
  present (Some "Bearer nobody") && String.prefix "Bearer " "Bearer nobody"
    && found (MOCK_USERS (substring_from 7 "Bearer nobody")) = false /\
  fst (mockAuth (Some "Bearer nobody") None (empty_world 0)) = Normal (Next (OwnUser netrunnerX)).
Proof.
  split; [reflexivity|].
  destruct (mockAuth_never_rejects (Some "Bearer nobody") None (empty_world 0))
    as (user & w' & Hrun & _ & _ & _ & _ & _ & Hanon).
  rewrite Hrun. destruct (Hanon eq_refl eq_refl) as [-> _]. reflexivity.
Defined.

Example mockAuth_inherited_member :
  fst (mockAuth (Some "Bearer toString") None (empty_world 0)) = Normal (Next (Inherited "toString")) /\
  exists e, requirePermission "read" (Inherited "toString") = Throw e.
Proof. split; [reflexivity | eexists; reflexivity]. Qed.

(** ** The classification of a post *)

Section ClassificationFacts.

Lemma toLowerCase_app (a b : string) : toLowerCase (a ++ b) = toLowerCase a ++ toLowerCase b.
Proof.
  induction a as [|c a IH]; [reflexivity|].
  rewrite append_cons. cbn [toLowerCase]. rewrite append_cons, IH. reflexivity.
Qed.

Lemma prefix_app (w a b : string) : String.prefix w a = true -> String.prefix w (a ++ b) = true.
Proof.
  revert a. induction w as [|c w IH]; intros a H; [destruct (a ++ b); reflexivity|].
  destruct a as [|x a]; [discriminate H|].
  rewrite append_cons. cbn in *. destruct (ascii_dec c x); [auto | discriminate H].
Qed.

Lemma includes_app_l (a b w : string) : includes a w = true -> includes (a ++ b) w = true.
Proof.
  induction a as [|x a IH]; cbn [includes].
  - rewrite orb_false_r. intros H. destruct w; [|discriminate H].
    destruct b; reflexivity.
  - rewrite append_cons. cbn [includes]. intros H.
    apply orb_true_iff in H as [H|H]; apply orb_true_iff.
    + left. rewrite <- append_cons. apply prefix_app, H.
    + right. apply IH, H.
Qed.

Lemma includes_app_r (a b w : string) : includes b w = true -> includes (a ++ b) w = true.
Proof.
  intros H. induction a as [|x a IH]; [exact H|].
  rewrite append_cons. cbn [includes]. rewrite IH. apply orb_true_r.
Qed.

Lemma existsb_includes_app (before content after : string) (words : list string) :
  existsb (includes content) words = true ->
  existsb (includes (before ++ content ++ after)) words = true.
Proof.
  rewrite !existsb_exists. intros (word & Hin & Hw). exists word. split; [exact Hin|].
  apply includes_app_r, includes_app_l, Hw.
Qed.

(** X17: more text never lowers the priority of a post. A post classified
    'high' stays 'high' whatever is written before or after it, and one
    classified 'medium' never drops to 'low'; the test is on substrings of
    the lower-cased text, so a keyword inside a longer word counts. *)
Theorem classifyUrgency_monotone (before content after : string) :
  (classifyUrgency content = "high" ->
   classifyUrgency (before ++ content ++ after) = "high") /\
  (classifyUrgency content = "medium" ->
   classifyUrgency (before ++ content ++ after) <> "low") /\
  (classifyUrgency (before ++ content ++ after) = "low" -> classifyUrgency content = "low").
Proof.
  unfold classifyUrgency. rewrite !toLowerCase_app.
  pose proof (existsb_includes_app (toLowerCase before) (toLowerCase content)
                (toLowerCase after) urgentKeywords) as Hu.
  pose proof (existsb_includes_app (toLowerCase before) (toLowerCase content)
                (toLowerCase after) mediumKeywords) as Hm.
  destruct (existsb (includes (toLowerCase content)) urgentKeywords).
  { rewrite (Hu eq_refl). repeat split; [discriminate..]. }
  destruct (existsb (includes (toLowerCase content)) mediumKeywords).
  { rewrite (Hm eq_refl).
    destruct (existsb _ urgentKeywords); repeat split; discriminate. }
  split; [discriminate|]. split; [discriminate|]. reflexivity.
Qed.

Lemma lower_char_idempotent (c : ascii) : lower_char (lower_char c) = lower_char c.
Proof.
  unfold lower_char.
  destruct (N.leb 65 (N_of_ascii c) && N.leb (N_of_ascii c) 90)%bool eqn:Hup; [|rewrite Hup; reflexivity].
  apply andb_prop in Hup as [H1 H2]. apply N.leb_le in H1, H2.
  rewrite N_ascii_embedding by lia.
  destruct (N.leb_spec 65 (N_of_ascii c + 32)); [|lia].
  destruct (N.leb_spec (N_of_ascii c + 32) 90); [lia|]. reflexivity.
Qed.

Lemma toLowerCase_idempotent (s : string) : toLowerCase (toLowerCase s) = toLowerCase s.
Proof.
  induction s as [|c s IH]; [reflexivity|].
  cbn. rewrite lower_char_idempotent, IH. reflexivity.
Qed.

Lemma prefix_hash (t : string) :
  String.prefix "#" t = true <-> exists rest, t = String "#" rest.
Proof.
  rewrite String.prefix_correct. destruct t as [|c t]; cbn.
  - split; [discriminate | intros [rest H]; discriminate H].
  - split; [intros [= ->]; eauto | intros [rest [= -> _]]; destruct t; reflexivity].
Qed.

Lemma scan_hashtags_start (s : string) (current : option string) (tag : string) :
  (forall t, current = Some t -> String.prefix "#" t = true) ->
  In tag (scan_hashtags s current) -> String.prefix "#" tag = true.
Proof.
  revert current. induction s as [|c s IH]; intros current Hcur; cbn [scan_hashtags].
  - destruct current as [t|]; [|intros []].
    destruct (Nat.ltb 1 (String.length t)); [|intros []].
    intros [<-|[]]. auto.
  - destruct current as [t|].
    + destruct (is_word_char c).
      * apply IH. intros t' [= <-]. specialize (Hcur t eq_refl).
        apply prefix_hash in Hcur as [rest ->]. apply prefix_hash.
        rewrite append_cons. eauto.
      * intros Hin. apply in_app_or in Hin as [Hin|Hin].
        -- destruct (Nat.ltb 1 (String.length t)); [|destruct Hin].
           destruct Hin as [<-|[]]. auto.
        -- revert Hin. apply IH. intros t'. destruct (Ascii.eqb c "#"); [|discriminate].
           intros [= <-]. reflexivity.
    + apply IH. intros t'. destruct (Ascii.eqb c "#"); [|discriminate].
      intros [= <-]. reflexivity.
Qed.

Lemma toLowerCase_hash (t : string) :
  String.prefix "#" t = true -> String.prefix "#" (toLowerCase t) = true.
Proof.
  rewrite !prefix_hash. intros [rest ->]. cbn. eauto.
Qed.

(** X18: what [extractKeywords] returns. Every keyword appears once and is in
    lower case, and it is either a hashtag (it starts with '#') or one of the
    thirteen listed words. *)
Theorem extractKeywords_result (content : string) :
  NoDup (extractKeywords content) /\
  forall k, k ∈ extractKeywords content ->
    toLowerCase k = k /\
    (String.prefix "#" k = true \/ In k supply_words \/ In k place_words).
Proof.
  split; [apply dedupe_NoDup|].
  intros k Hk. unfold extractKeywords in Hk. rewrite dedupe_elem in Hk.
  apply list_elem_of_In, in_map_iff in Hk as (raw & <- & Hraw).
  split; [apply toLowerCase_idempotent|].
  apply in_app_or in Hraw as [Hraw|Hraw]; [|apply in_app_or in Hraw as [Hraw|Hraw]].
  - left. apply toLowerCase_hash. revert Hraw. apply scan_hashtags_start. discriminate.
  - right. left. unfold word_matches in Hraw.
    apply list_elem_of_In, list_elem_of_filter in Hraw as [Hraw _].
    apply existsb_exists in Hraw as (word & Hin & Heq).
    apply String.eqb_eq in Heq as ->. exact Hin.
  - right. right. unfold word_matches in Hraw.
    apply list_elem_of_In, list_elem_of_filter in Hraw as [Hraw _].
    apply existsb_exists in Hraw as (word & Hin & Heq).
    apply String.eqb_eq in Heq as ->. exact Hin.
Qed.

End ClassificationFacts.

Lemma classifyUrgency_monotone_witness :
  classifyUrgency "Need supplies" = "medium" /\
  classifyUrgency ("Update: " ++ "Need supplies" ++ " at the shelter") <> "low" /\
  classifyUrgency "This was helpful" = "high".
Proof.
  split; [reflexivity|]. split; [|reflexivity].
  apply (classifyUrgency_monotone "Update: " "Need supplies" " at the shelter"). reflexivity.
Defined.

Example extractKeywords_post :
  extractKeywords "URGENT: Road closures on Highway 101. #traffic #Flood #SOS seafood, FOOD and food"
  = ["#traffic"; "#flood"; "#sos"; "food"; "road"; "highway"].
Proof. reflexivity. Qed.

(** ** Helpers of the client *)

Section ClientFacts.

(** X19: [formatTimeAgo] shows the whole minutes, hours or days that have
    passed. For a clock and a date in the range of [Date] that lie at most
    2^53 ms apart (where the subtraction and the divisions of the source
    are exact), an elapsed time under an hour is shown in minutes, one under
    a day in hours (1 to 23), any other in days (1 or more), and the number
    shown is the elapsed time in that unit rounded down; for a date in the
    future it shows a negative number of minutes. *)
Theorem formatTimeAgo_rounds_down (now date : Z) :
  Z.abs now <= 8640000000000000 ->
  Z.abs date <= 8640000000000000 ->
  Z.abs (now - date) <= 2 ^ 53 ->
  (now - date < 3600000 ->
   snd (formatTimeAgo now date) = "m ago" /\
   fst (formatTimeAgo now date) * 60000 <= now - date
     < (fst (formatTimeAgo now date) + 1) * 60000) /\
  (3600000 <= now - date < 86400000 ->
   snd (formatTimeAgo now date) = "h ago" /\
   1 <= fst (formatTimeAgo now date) <= 23 /\
   fst (formatTimeAgo now date) * 3600000 <= now - date
     < (fst (formatTimeAgo now date) + 1) * 3600000) /\
  (86400000 <= now - date ->
   snd (formatTimeAgo now date) = "d ago" /\
   1 <= fst (formatTimeAgo now date) /\
   fst (formatTimeAgo now date) * 86400000 <= now - date
     < (fst (formatTimeAgo now date) + 1) * 86400000) /\
  (now < date ->
   snd (formatTimeAgo now date) = "m ago" /\ fst (formatTimeAgo now date) < 0).
Proof.
  intros _ _ _.
  unfold formatTimeAgo. change (1000 * 60) with 60000.
  destruct (Z.ltb_spec ((now - date) / 60000) 60) as [H60|H60];
    [|destruct (Z.ltb_spec ((now - date) / 60000) 1440) as [H1440|H1440]];
    cbn [fst snd]; repeat split; intros;
    try reflexivity;
    try (exfalso; Z.to_euclidean_division_equations; lia);
    try (Z.to_euclidean_division_equations; lia).
Qed.

Lemma existsb_eqb_In (tag : string) (tags : list string) :
  existsb (String.eqb tag) tags = true <-> tag ∈ tags.
Proof.
  rewrite existsb_exists, list_elem_of_In. split.
  - intros (x & Hin & Heq). apply String.eqb_eq in Heq as ->. exact Hin.
  - intros Hin. exists tag. split; [exact Hin | apply String.eqb_refl].
Qed.

Lemma toggle_elem (tags : list string) (tag t : string) :
  t ∈ handleTagToggle tags tag <->
  (t = tag /\ tag ∉ tags) \/ (t <> tag /\ t ∈ tags).
Proof.
  unfold handleTagToggle. destruct (existsb (String.eqb tag) tags) eqn:Hex.
  - apply existsb_eqb_In in Hex. rewrite list_elem_of_filter.
    destruct (String.eqb_spec t tag) as [->|Hne]; cbn; split.
    + intros [H _]. discriminate H.
    + intros [[_ H]|[H _]]; contradiction.
    + intros [_ H]. auto.
    + intros [[H _]|[_ H]]; [contradiction | auto].
  - assert (Hnot : tag ∉ tags).
    { intros Hin. apply existsb_eqb_In in Hin. congruence. }
    rewrite elem_of_app, list_elem_of_singleton.
    destruct (decide (t = tag)) as [->|Hne]; naive_solver.
Qed.

(** X20: [handleTagToggle] flips one tag and leaves the others alone. After
    a toggle the tag is selected exactly if it was not before, every other tag
    is selected exactly if it was, a list without duplicates stays without
    duplicates, and toggling an unselected tag twice gives back the list as it
    was. *)
Theorem handleTagToggle_flips (tags : list string) (tag : string) :
  (tag ∈ handleTagToggle tags tag <-> tag ∉ tags) /\
  (forall t, t <> tag -> (t ∈ handleTagToggle tags tag <-> t ∈ tags)) /\
  (NoDup tags -> NoDup (handleTagToggle tags tag)) /\
  (tag ∉ tags -> handleTagToggle (handleTagToggle tags tag) tag = tags) /\
  (forall t, t ∈ handleTagToggle (handleTagToggle tags tag) tag <-> t ∈ tags).
Proof.
  split; [|split; [|split; [|split]]].
  - rewrite toggle_elem. split; [intros [[_ H]|[H _]]; [exact H | contradiction] | auto].
  - intros t Hne. rewrite toggle_elem. split; [intros [[H _]|[_ H]]; [contradiction | exact H] | auto].
  - intros Hnd. unfold handleTagToggle. destruct (existsb (String.eqb tag) tags) eqn:Hex.
    + apply NoDup_filter, Hnd.
    + apply NoDup_app. split; [exact Hnd|]. split; [|apply NoDup_singleton].
      intros x Hx Hx'. apply list_elem_of_singleton in Hx' as ->.
      apply existsb_eqb_In in Hx. congruence.
  - intros Hnot. unfold handleTagToggle at 2.
    destruct (existsb (String.eqb tag) tags) eqn:Hex;
      [apply existsb_eqb_In in Hex; contradiction|].
    unfold handleTagToggle.
    assert (Hin : existsb (String.eqb tag) (tags ++ [tag]) = true).
    { apply existsb_eqb_In, elem_of_app. right. apply list_elem_of_singleton. reflexivity. }
    rewrite Hin, filter_app. cbn. rewrite String.eqb_refl. cbn. rewrite app_nil_r.
    clear Hin Hex. induction tags as [|x tags IH]; [reflexivity|].
    apply not_elem_of_cons in Hnot as [Hne Hnot].
    rewrite filter_cons. destruct (String.eqb_spec x tag) as [->|_]; [contradiction|].
    cbn. rewrite decide_True by reflexivity. f_equal. apply IH, Hnot.
  - intros t. rewrite toggle_elem.
    assert (Hflip : tag ∈ handleTagToggle tags tag <-> tag ∉ tags)
      by (rewrite toggle_elem; naive_solver).
    destruct (decide (t = tag)) as [->|Hne].
    + destruct (decide (tag ∈ tags)); naive_solver.
    + pose proof (toggle_elem tags tag t) as Ht. naive_solver.
Qed.

End ClientFacts.

Lemma formatTimeAgo_rounds_down_witness :
  Z.abs 20000000 <= 8640000000000000 /\
  Z.abs 5000000 <= 8640000000000000 /\
  Z.abs (20000000 - 5000000) <= 2 ^ 53 /\
  3600000 <= 20000000 - 5000000 < 86400000 /\
  formatTimeAgo 20000000 5000000 = (4, "h ago").
Proof.
  split; [lia|]. split; [lia|]. split; [lia|]. split; [lia|].
  destruct (formatTimeAgo_rounds_down 20000000 5000000
              ltac:(lia) ltac:(lia) ltac:(lia)) as (_ & Hh & _).
  destruct (Hh ltac:(lia)) as (Hunit & _ & _). reflexivity.
Defined.

Lemma handleTagToggle_flips_witness :
  ("flood" ∉ ["fire"; "storm"]) /\
  handleTagToggle (handleTagToggle ["fire"; "storm"] "flood") "flood" = ["fire"; "storm"].
Proof.
  assert (Hnot : "flood" ∉ ["fire"; "storm"]).
  { intros H. apply list_elem_of_In in H. destruct H as [H|[H|[]]]; discriminate H. }
  split; [exact Hnot|].
  apply (handleTagToggle_flips ["fire"; "storm"] "flood"). exact Hnot.
Defined.

Section DisasterListFacts.

Lemma update_unknown_id (data : Disaster) (prev : list Disaster) :
  (forall d, d ∈ prev -> strict_equals (assoc_get "id" d) (assoc_get "id" data) = false) ->
  on_disaster_updated "update" data prev = prev /\
  on_disaster_updated "delete" data prev = prev.
Proof.
  unfold on_disaster_updated. cbn [String.eqb Ascii.eqb Bool.eqb].
  induction prev as [|d prev IH]; intros Hall; [split; reflexivity|].
  destruct IH as [IHu IHd].
  { intros d' Hd'. apply Hall. apply elem_of_cons. auto. }
  assert (Hd : strict_equals (assoc_get "id" d) (assoc_get "id" data) = false)
    by (apply Hall, elem_of_cons; auto).
  split.
  - cbn [map]. rewrite Hd, IHu. reflexivity.
  - rewrite filter_cons, Hd. cbn. rewrite decide_True by reflexivity. rewrite IHd. reflexivity.
Qed.

(** X21: how the dashboard's list follows the [disaster_updated] events. An
    update keeps the number of disasters and a delete removes exactly those
    with the id of the event; for an id that is not in the list an update and
    a delete change nothing (the updated disaster is not added); a create
    followed by the delete of the same disaster gives back a list that did not
    hold its id; and an event of any other type changes nothing. *)
Theorem on_disaster_updated_list (type id : string) (data : Disaster) (prev : list Disaster) :
  length (on_disaster_updated "update" data prev) = length prev /\
  (forall d, d ∈ on_disaster_updated "delete" data prev <->
             d ∈ prev /\ strict_equals (assoc_get "id" d) (assoc_get "id" data) = false) /\
  ((forall d, d ∈ prev -> strict_equals (assoc_get "id" d) (assoc_get "id" data) = false) ->
   on_disaster_updated "update" data prev = prev /\
   on_disaster_updated "delete" data prev = prev /\
   (assoc_get "id" data = JsString id ->
    on_disaster_updated "delete" data (on_disaster_updated "create" data prev) = prev)) /\
  (~ In type ["create"; "update"; "delete"] -> on_disaster_updated type data prev = prev).
Proof.
  split; [|split; [|split]].
  - unfold on_disaster_updated. cbn [String.eqb Ascii.eqb Bool.eqb]. apply length_map.
  - intros d. unfold on_disaster_updated. cbn [String.eqb Ascii.eqb Bool.eqb].
    rewrite list_elem_of_filter.
    destruct (strict_equals (assoc_get "id" d) (assoc_get "id" data)); cbn; naive_solver.
  - intros Hall. destruct (update_unknown_id data prev Hall) as [Hu Hd].
    split; [exact Hu|]. split; [exact Hd|].
    intros Hid. unfold on_disaster_updated at 2. cbn [String.eqb Ascii.eqb Bool.eqb].
    unfold on_disaster_updated. cbn [String.eqb Ascii.eqb Bool.eqb].
    rewrite filter_cons, Hid. cbn [strict_equals]. rewrite String.eqb_refl. cbn.
    rewrite decide_False by discriminate.
    rewrite <- Hid. exact Hd.
  - intros Hnot. unfold on_disaster_updated.
    destruct (String.eqb_spec type "create") as [->|_]; [exfalso; apply Hnot; cbn; auto|].
    destruct (String.eqb_spec type "update") as [->|_]; [exfalso; apply Hnot; cbn; auto|].
    destruct (String.eqb_spec type "delete") as [->|_]; [exfalso; apply Hnot; cbn; auto|].
    reflexivity.
Qed.

End DisasterListFacts.

Lemma on_disaster_updated_list_witness :
  (forall d, d ∈ [ [("id", JsString "a")] ] ->
             strict_equals (assoc_get "id" d)
               (assoc_get "id" [("id", JsString "b"); ("title", JsString "Flood")])
             = false) /\
  on_disaster_updated "delete" [("id", JsString "b"); ("title", JsString "Flood")]
    (on_disaster_updated "create" [("id", JsString "b"); ("title", JsString "Flood")]
       [ [("id", JsString "a")] ])
  = [ [("id", JsString "a")] ].
Proof.
  assert (Hall : forall d, d ∈ [ [("id", JsString "a")] ] ->
             strict_equals (assoc_get "id" d)
               (assoc_get "id" [("id", JsString "b"); ("title", JsString "Flood")])
             = false).
  { intros d Hd. apply list_elem_of_singleton in Hd as ->. reflexivity. }
  split; [exact Hall|].
  destruct (on_disaster_updated_list "create" "b"
              [("id", JsString "b"); ("title", JsString "Flood")]
              [ [("id", JsString "a")] ]) as (_ & _ & H & _).
  destruct (H Hall) as (_ & _ & Hcd). apply Hcd. reflexivity.
Defined.

(** ** The writing routes *)

Section WriteFacts.

Variable P : Platform.
Variable S : Client.
Variable code_points : string -> list string.

Lemma prop_throws (v : JsValue) (name : string) (e : JsError) :
  prop v name = Throw e -> v = JsNull \/ v = JsUndefined.
Proof. destruct v; cbn; intros H; try discriminate H; auto. Qed.

Lemma prop_field (v : JsValue) (name : string) (a : JsValue) :
  prop v name = Normal a -> a = field v name.
Proof. destruct v; cbn; intros H; try discriminate H; injection H as <-; reflexivity. Qed.

Ltac cases_in H :=
  repeat match type of H with
         | context [match ?x with _ => _ end] => destruct x eqn:?
         end.

Ltac outcome :=
  first
    [ left; split; [reflexivity|]; split; [cbn; lia|];
      first [ intros ? ? [] %elem_of_nil
            | intros ? ? ->%list_elem_of_singleton; congruence
            | right; congruence
            | left; match goal with
                    | H : req_user_id ?u = Throw _ |- _ => destruct u; [discriminate H ..|reflexivity]
                    end ]
    | right; eexists _, _; split; [reflexivity|];
      split; [first [eassumption | reflexivity]|];
      split; [reflexivity|];
      first [ left; reflexivity
            | right; split; [eapply prop_throws; eassumption | reflexivity] ]
    | right; eexists; split; [first [eassumption | reflexivity]|]; split; [reflexivity|];
      first [ left; reflexivity
            | right; split; [eapply prop_throws; eassumption | reflexivity] ] ].

(** X22: the writing routes announce a write exactly when the database has
    acknowledged it. POST, PUT and DELETE /disasters and POST /resources each
    end in one of two ways. Either nothing is emitted and the answer is an
    error status: the request was turned down before the write, or the
    database answered the write with an error, or the call was rejected. Or the
    database returned the written row, and the route emitted exactly one
    event carrying that row: [disaster_updated] of the route's kind, or
    [resources_updated] to the room of the resource's disaster. The answer
    is then the success answer of the route, unless the returned row is
    [null] or [undefined], where the event is out and the answer is 500. *)
Theorem writes_are_announced (id : string) (body : JsValue) (user : Looked) (t1 t2 : Z) :
  ((emitted (post_disaster P S body user t1) = [] /\
    400 <= status (answer (post_disaster P S body user t1)) /\
    forall row data, row ∈ written (post_disaster P S body user t1) ->
                     disasters_insert S row <> Replied (DbData data)) \/
   (exists row data,
      written (post_disaster P S body user t1) = [row] /\
      disasters_insert S row = Replied (DbData data) /\
      emitted (post_disaster P S body user t1) = [emit_disaster_updated create data] /\
      (answer (post_disaster P S body user t1) = json 201 data \/
       (data = JsNull \/ data = JsUndefined) /\
       status (answer (post_disaster P S body user t1)) = 500))) /\
  ((emitted (put_disaster P S code_points id body user t1 t2) = [] /\
    400 <= status (answer (put_disaster P S code_points id body user t1 t2)) /\
    forall row data, row ∈ written (put_disaster P S code_points id body user t1 t2) ->
                     disasters_update S id row <> Replied (DbData data)) \/
   (exists row data,
      written (put_disaster P S code_points id body user t1 t2) = [row] /\
      disasters_update S id row = Replied (DbData data) /\
      emitted (put_disaster P S code_points id body user t1 t2)
        = [emit_disaster_updated update data] /\
      (answer (put_disaster P S code_points id body user t1 t2) = json 200 data \/
       (data = JsNull \/ data = JsUndefined) /\
       status (answer (put_disaster P S code_points id body user t1 t2)) = 500))) /\
  ((emitted (delete_disaster P S id user) = [] /\
    400 <= status (answer (delete_disaster P S id user)) /\
    (user = NotFound \/ forall data, disasters_delete S id <> Replied (DbData data))) \/
   (exists data,
      disasters_delete S id = Replied (DbData data) /\
      emitted (delete_disaster P S id user) = [emit_disaster_updated delete_ data] /\
      (answer (delete_disaster P S id user)
         = json 200 (JsObject [("message", JsString "Disaster deleted successfully")]) \/
       (data = JsNull \/ data = JsUndefined) /\
       status (answer (delete_disaster P S id user)) = 500))) /\
  ((emitted (post_resource P S body) = [] /\
    400 <= status (answer (post_resource P S body)) /\
    forall row data, row ∈ written (post_resource P S body) ->
                     resources_insert S row <> Replied (DbData data)) \/
   (exists row data,
      written (post_resource P S body) = [row] /\
      resources_insert S row = Replied (DbData data) /\
      emitted (post_resource P S body)
        = [emit_resource_created_for P (field body "disaster_id") data] /\
      (answer (post_resource P S body) = json 201 data \/
       (data = JsNull \/ data = JsUndefined) /\
       status (answer (post_resource P S body)) = 500))).
Proof.
  split; [|split; [|split]].
  - unfold post_disaster, caught, not_found.
    repeat case_match; subst; cbn [emitted answer written status]; outcome.
  - unfold put_disaster, caught, not_found.
    repeat case_match; subst; cbn [emitted answer written status]; outcome.
  - unfold delete_disaster, caught, not_found.
    repeat case_match; subst; cbn [emitted answer written status]; outcome.
  - unfold post_resource, caught, not_found.
    destruct (prop body "disaster_id") as [disaster_id|e] eqn:Hbody; [|outcome].
    apply prop_field in Hbody as ->.
    repeat case_match; subst; cbn [emitted answer written status]; outcome.
Qed.


(** X24: a location is stored only when both coordinates are truthy. Every
    row that POST /disasters, PUT /disasters/:id and POST /resources hand to
    the database has a [location] exactly when the request's [lat] and [lng]
    are both truthy, and it is then the text [POINT(lng lat)], longitude
    first. A coordinate that is the number 0, as on the equator or the prime
    meridian, is dropped with the whole location. *)
Theorem location_needs_both_coordinates
  (id : string) (body : JsValue) (user : Looked) (t1 t2 : Z) (row : JsValue) :
  row ∈ written (post_disaster P S body user t1) \/
  row ∈ written (put_disaster P S code_points id body user t1 t2) \/
  row ∈ written (post_resource P S body) ->
  existsb (String.eqb "location") (field_names row)
    = truthy (field body "lat") && truthy (field body "lng") /\
  field row "location"
    = (if truthy (field body "lat") && truthy (field body "lng")
       then JsString ("POINT(" ++ ToString P (field body "lng") ++ " "
                      ++ ToString P (field body "lat") ++ ")")
       else JsUndefined) /\
  (forall q, field body "lat" = JsNumber q \/ field body "lng" = JsNumber q ->
             Qeq_bool q 0 = true -> field row "location" = JsUndefined).
Proof.
  intros Hrow.
  assert (Hmain :
    existsb (String.eqb "location") (field_names row)
      = truthy (field body "lat") && truthy (field body "lng") /\
    field row "location"
      = (if truthy (field body "lat") && truthy (field body "lng")
         then JsString ("POINT(" ++ ToString P (field body "lng") ++ " "
                        ++ ToString P (field body "lat") ++ ")")
         else JsUndefined)).
  { destruct Hrow as [Hrow|[Hrow|Hrow]].
    - unfold post_disaster, caught in Hrow.
      cases_in Hrow; cbn [written] in Hrow;
        first [ apply elem_of_nil in Hrow as []
              | apply list_elem_of_singleton in Hrow as -> ];
        unfold location_field;
        destruct (truthy (field body "lat") && truthy (field body "lng"));
        split; reflexivity.
    - unfold put_disaster, caught, not_found in Hrow.
      cases_in Hrow; cbn [written] in Hrow;
        first [ apply elem_of_nil in Hrow as []
              | apply list_elem_of_singleton in Hrow as -> ];
        unfold location_field, when_truthy;
        match goal with
        | H : prop body "title" = Normal ?a |- _ => apply prop_field in H; subst a
        end;
        destruct (truthy (field body "title"));
        destruct (truthy (field body "location_name"));
        destruct (truthy (field body "description"));
        destruct (truthy (field body "tags"));
        destruct (truthy (field body "lat") && truthy (field body "lng"));
        split; reflexivity.
    - unfold post_resource, caught in Hrow.
      cases_in Hrow; cbn [written] in Hrow;
        first [ apply elem_of_nil in Hrow as []
              | apply list_elem_of_singleton in Hrow as -> ];
        unfold location_field;
        destruct (truthy (field body "lat") && truthy (field body "lng"));
        split; reflexivity. }
  destruct Hmain as [Hnames Hvalue]. split; [exact Hnames|]. split; [exact Hvalue|].
  intros q Hzero Hq. rewrite Hvalue.
  destruct Hzero as [->| ->]; cbn [truthy]; rewrite Hq; cbn [negb andb];
    [reflexivity | rewrite Bool.andb_false_r; reflexivity].
Qed.

(** X25: who hears of a new resource. When POST /resources is given the id of
    a disaster as a string, the event it emits for the created resource is
    the [resources_updated] event of that disaster's room, so it reaches
    only sockets that have sent [join_disaster] for this disaster: a socket
    that never did receives nothing from this route, whatever else it
    joined. *)
Theorem created_resource_delivery
  (history : list SocketEvent) (body : JsValue) (d sid : string) (e : Emission) :
  field body "disaster_id" = JsString d ->
  e ∈ emitted (post_resource P S body) ->
  (exists data, e = emit_resource_created d data) /\
  (sid ∈ recipients (after_events history) e -> In (JoinDisaster sid d) history).
Proof.
  intros Hd He.
  assert (Hshape : exists data, e = emit_resource_created d data).
  { unfold post_resource, caught in He.
    destruct (prop body "disaster_id") as [disaster_id|err] eqn:Hbody;
      [|apply elem_of_nil in He as []].
    apply prop_field in Hbody. rewrite Hd in Hbody. subst disaster_id.
    cases_in He; cbn [emitted] in He;
      first [ apply elem_of_nil in He as []
            | apply list_elem_of_singleton in He as -> ];
      eexists; reflexivity. }
  split; [exact Hshape|].
  destruct Hshape as [data ->]. apply room_emission_needs_join. reflexivity.
Qed.

Lemma MOCK_USERS_own (key : string) (u : MockUser) :
  MOCK_USERS key = OwnUser u ->
  u_id u = key /\ In u [netrunnerX; reliefAdmin; fieldWorker; volunteer].
Proof.
  unfold MOCK_USERS.
  destruct (String.eqb_spec key "netrunnerX") as [->|_]; [intros [= <-]; cbn; auto|].
  destruct (String.eqb_spec key "reliefAdmin") as [->|_]; [intros [= <-]; cbn; auto|].
  destruct (String.eqb_spec key "fieldWorker") as [->|_]; [intros [= <-]; cbn; auto|].
  destruct (String.eqb_spec key "volunteer") as [->|_]; [intros [= <-]; cbn; auto 6|].
  destruct (existsb (String.eqb key) Object_prototype); discriminate.
Qed.

Lemma mockAuth_passes (authorization user_id : option string) (w : World) :
  exists (key : string) (w' : World),
    mockAuth authorization user_id w = (Normal (Next (MOCK_USERS key)), w') /\
    found (MOCK_USERS key) = true /\
    (present user_id && found (MOCK_USERS (the_string user_id)) = true ->
     key = the_string user_id) /\
    (user_id = None -> authorization = None -> key = "netrunnerX").
Proof.
  unfold mockAuth.
  destruct (present user_id && found (MOCK_USERS (the_string user_id))) eqn:Hq.
  - apply andb_prop in Hq as [Hp Hfound]. rewrite Hfound. cbn [negb bind].
    eexists _, _. split; [reflexivity|]. split; [exact Hfound|].
    split; [reflexivity|]. intros ->. discriminate Hp.
  - destruct (present authorization && String.prefix "Bearer " (the_string authorization))
      eqn:Hb; cbn [andb].
    + destruct (found (MOCK_USERS (substring_from 7 (the_string authorization)))) eqn:Ht.
      * rewrite Ht. cbn [negb bind].
        eexists _, _. split; [reflexivity|]. split; [exact Ht|].
        split; [discriminate|]. intros _ ->. discriminate Hb.
      * cbn [negb bind found MOCK_USERS String.eqb Ascii.eqb Bool.eqb].
        eexists "netrunnerX", _. split; [reflexivity|]. split; [reflexivity|].
        split; [discriminate|]. reflexivity.
    + cbn [negb bind found MOCK_USERS String.eqb Ascii.eqb Bool.eqb].
      eexists "netrunnerX", _. split; [reflexivity|]. split; [reflexivity|].
      split; [discriminate|]. reflexivity.
Qed.

(** X26: whose name a created disaster carries. A POST /disasters request
    always gets past [mockAuth] to the handler, and the row the handler
    gives the database has as [owner_id], and as the user of its single
    audit entry (action [create]), the id of the user [mockAuth] chose: the
    one named by the [user_id] query parameter when that is one of the four
    mock users, and netrunnerX for a request with no [user_id] and no
    Authorization header. The owner is one of the four ids, or [undefined]
    when the request named a member every object inherits, such as
    [toString]. *)
Theorem created_disaster_owner
  (authorization user_id : option string) (body : JsValue) (t : Z) (w : World) :
  exists (h : Handled) (w' : World),
    POST_disasters P S authorization user_id body t w = (Normal h, w') /\
    status (answer h) <> 401 /\
    forall row, row ∈ written h ->
      exists owner,
        field row "owner_id" = owner /\
        field row "audit_trail" = JsArray [audit_entry P "create" owner t] /\
        (owner = JsUndefined \/
         exists u, In u [netrunnerX; reliefAdmin; fieldWorker; volunteer] /\
                   owner = JsString (u_id u)) /\
        (forall name, user_id = Some name ->
                      In name ["netrunnerX"; "reliefAdmin"; "fieldWorker"; "volunteer"] ->
                      owner = JsString name) /\
        (user_id = None -> authorization = None -> owner = JsString "netrunnerX").
Proof.
  destruct (mockAuth_passes authorization user_id w)
    as (key & w' & Hrun & Hfound & Hquery & Hanon).
  unfold POST_disasters, bind. rewrite Hrun. cbn [ret].
  eexists _, _. split; [reflexivity|].
  assert (Hid : exists owner,
            req_user_id (MOCK_USERS key) = Normal owner /\
            (owner = JsUndefined \/
             exists u, In u [netrunnerX; reliefAdmin; fieldWorker; volunteer] /\
                       owner = JsString (u_id u)) /\
            (forall u, MOCK_USERS key = OwnUser u -> owner = JsString key)).
  { destruct (MOCK_USERS key) as [u|name|] eqn:Hkey; [| |discriminate Hfound].
    - destruct (MOCK_USERS_own _ _ Hkey) as [Hu Hin].
      exists (JsString (u_id u)). split; [reflexivity|]. split; [right; eauto|].
      intros _ _. rewrite Hu. reflexivity.
    - exists JsUndefined. split; [reflexivity|]. split; [left; reflexivity|].
      intros u [=]. }
  destruct Hid as (owner & Hreq & Hkind & Hown).
  unfold post_disaster, caught. rewrite Hreq.
  split.
  { repeat case_match; cbn [answer status]; lia. }
  intros row Hrow. exists owner.
  assert (Hfields : field row "owner_id" = owner /\
                    field row "audit_trail" = JsArray [audit_entry P "create" owner t]).
  { cases_in Hrow; cbn [written] in Hrow;
      first [ apply elem_of_nil in Hrow as []
            | apply list_elem_of_singleton in Hrow as -> ];
      split; reflexivity. }
  destruct Hfields as [Ho Ha]. split; [exact Ho|]. split; [exact Ha|].
  split; [exact Hkind|]. split.
  - intros name -> Hin.
    assert (Hname : present (Some name) && found (MOCK_USERS (the_string (Some name))) = true)
      by (destruct Hin as [<-|[<-|[<-|[<-|[]]]]]; reflexivity).
    specialize (Hquery Hname). cbn [the_string] in Hquery. subst key.
    assert (Hu : exists u, MOCK_USERS name = OwnUser u)
      by (destruct Hin as [<-|[<-|[<-|[<-|[]]]]]; eexists; reflexivity).
    destruct Hu as [u Hu]. exact (Hown u Hu).
  - intros Hq Ha0. rewrite (Hanon Hq Ha0) in Hown. exact (Hown netrunnerX eq_refl).
Qed.

End WriteFacts.

Lemma writes_are_announced_witness :
  emitted (post_disaster plain_platform refusing flood (OwnUser netrunnerX) 0) = [] /\
  exists data,
    emitted (post_disaster plain_platform storing flood (OwnUser netrunnerX) 0)
    = [emit_disaster_updated create data].
Proof.
  split.
  - destruct (writes_are_announced plain_platform refusing (fun _ => []) "d1" flood
                (OwnUser netrunnerX) 0 0)
      as [[(H & _)|(row & data & _ & Hins & _)] _]; [exact H | discriminate Hins].
  - destruct (writes_are_announced plain_platform storing (fun _ => []) "d1" flood
                (OwnUser netrunnerX) 0 0)
      as [[(_ & Hs & _)|(row & data & _ & _ & He & _)] _].
    + cbn in Hs. lia.
    + exists data. exact He.
Defined.


Lemma location_needs_both_coordinates_witness :
  field flood "lat" = JsNumber 0 /\
  field (hd JsNull (written (post_disaster plain_platform storing flood (OwnUser netrunnerX) 0)))
        "location" = JsUndefined.
Proof.
  split; [reflexivity|].
  refine (proj2 (proj2 (location_needs_both_coordinates plain_platform storing (fun _ => [])
                          "d1" flood (OwnUser netrunnerX) 0 0 _ _)) 0%Q _ _).
  - left. vm_compute. apply list_elem_of_here.
  - left. reflexivity.
  - reflexivity.
Defined.

Lemma created_resource_delivery_witness :
  field shelter "disaster_id" = JsString "d1" /\
  "s2" ∉ recipients
           (after_events [Connection "s1"; Connection "s2";
                          JoinDisaster "s1" "d1"; JoinDisaster "s2" "d2"])
           (hd (mkEmission ToAll "" JsNull) (emitted (post_resource plain_platform storing shelter))).
Proof.
  split; [reflexivity|].
  intros Hin.
  destruct (created_resource_delivery plain_platform storing
              [Connection "s1"; Connection "s2"; JoinDisaster "s1" "d1"; JoinDisaster "s2" "d2"]
              shelter "d1" "s2"
              (hd (mkEmission ToAll "" JsNull)
                  (emitted (post_resource plain_platform storing shelter))))
    as [_ Hneeds]; [reflexivity | vm_compute; apply list_elem_of_here |].
  apply Hneeds in Hin. cbn in Hin.
  destruct Hin as [Hin|[Hin|[Hin|[Hin|[]]]]]; discriminate Hin.
Defined.

Lemma created_disaster_owner_witness :
  exists (h : Handled) (w' : World),
    POST_disasters plain_platform storing None None flood 0 (empty_world 0) = (Normal h, w') /\
    forall row, row ∈ written h -> field row "owner_id" = JsString "netrunnerX".
Proof.
  destruct (created_disaster_owner plain_platform storing None None flood 0 (empty_world 0))
    as (h & w' & Hrun & _ & Hrows).
  exists h, w'. split; [exact Hrun|].
  intros row Hrow. destruct (Hrows row Hrow) as (owner & Ho & _ & _ & _ & Hanon).
  rewrite Ho. apply Hanon; reflexivity.
Defined.
